(** * girder: API self-description and user authentication endpoints

    A shallow embedding of [girder/api/describe.py] (the chainable
    [Description] builder and the two catalogue endpoints of [Describe])
    and of [girder/api/v1/user.py] (the [User] resource: response
    filtering, session cookie and login).

    Python objects that are mutated in place and shared (the lists held by
    a [Description]) live in an explicit heap; request handlers are
    written in a state-and-exception monad over the request, the response
    cookie jar and the external store.  Collaborators whose code is not
    part of these two files (the models, the request helpers of
    [Resource], the standard library) are taken as an interface. *)

From Stdlib Require Import ZArith Lia Ascii.
From Stdlib Require String.
From stdpp Require Import base option list gmap sets strings sorting pretty.

Local Open Scope Z_scope.
#[local] Set Warnings "-clear-no-such-hyp".

(** ** Exceptions *)

(** The exceptions the two files can raise.  [RestException] is girder's
    own (message, HTTP status); the others are the Python built-ins raised
    by tuple unpacking, subscripting a missing key and subscripting
    [None]. *)
Inductive exn :=
| RestException (message : string) (code : Z)
| ValueError
| KeyError (key : string)
| TypeError.

(** Modelled from the spec: [RestException.__init__] lives in
    [girder/api/rest.py], which is not part of this slice; its [code]
    argument is optional.  The spec (section 6) calls the error raised by
    [describeResource], which passes no code, a 400-class error. *)
Definition RestException_default_code : Z := 400.

Inductive outcome (A : Type) :=
| Ok (a : A)
| Raise (e : exn).
Arguments Ok {A} a.
Arguments Raise {A} e.

(** ** girder/api/describe.py : class Description *)

Module describe.

Definition API_VERSION : string := "1.0.0".

(** The dict appended by [Description.param]. *)
Record ParamDecl := {
  name : string;
  description : string;
  paramType : string;
  dataType : string;
  allowMultiple : bool;
  required : bool
}.

(** The dict appended by [Description.errorResponse]. *)
Record ErrorResponse := {
  message : string;
  code : Z
}.

Inductive Entry :=
| EParam (p : ParamDecl)
| EError (e : ErrorResponse).

Definition loc := positive.

(** A [Description] instance: [_params] and [_errorResponses] are
    references to list objects, the other attributes are immutable
    values ([None] is Python's [None]). *)
Record Description := {
  _summary : string;
  _params : loc;
  _errorResponses : loc;
  _responseClass : option string;
  _notes : option string
}.

(** The Python heap restricted to what the class touches: list objects
    and [Description] instances, each addressed by reference. *)
Record Heap := {
  lists : gmap loc (list Entry);
  objects : gmap loc Description
}.

Definition empty_heap : Heap := {| lists := ∅; objects := ∅ |}.

(** Allocation of a new (empty) list object: [[]]. *)
Definition new_list (h : Heap) : Heap * loc :=
  let l := fresh (dom (lists h)) in
  ({| lists := <[l := []]> (lists h); objects := objects h |}, l).

(** [Description.__init__], together with the allocation of the instance;
    the result is the reference to the new builder. *)
Definition Description_init (h : Heap) (summary : string) : Heap * loc :=
  let '(h1, ps) := new_list h in
  let '(h2, es) := new_list h1 in
  let self := fresh (dom (objects h2)) in
  ({| lists := lists h2;
      objects := <[self := {| _summary := summary;
                              _params := ps;
                              _errorResponses := es;
                              _responseClass := None;
                              _notes := None |}]> (objects h2) |}, self).

(** [lst.append(x)] on the list object at [l]. *)
Definition list_append (h : Heap) (l : loc) (x : Entry) : option Heap :=
  xs ← lists h !! l;
  Some {| lists := <[l := xs ++ [x]]> (lists h); objects := objects h |}.

(** The dict returned by [asDict]: three values and two references, the
    latter being the builder's own list objects. *)
Record Export := {
  summary : string;
  notes : option string;
  parameters : loc;
  errorResponses : loc;
  responseClass_ : option string
}.

Definition asDict (h : Heap) (self : loc) : option Export :=
  d ← objects h !! self;
  Some {| summary := _summary d;
          notes := _notes d;
          parameters := _params d;
          errorResponses := _errorResponses d;
          responseClass_ := _responseClass d |}.

(** The mutators return the heap after the call and the returned
    reference; [None] only for a reference that is not a [Description],
    which Python cannot produce. *)
Definition responseClass (h : Heap) (self : loc) (obj : string)
  : option (Heap * loc) :=
  d ← objects h !! self;
  Some ({| lists := lists h;
           objects := <[self := {| _summary := _summary d;
                                   _params := _params d;
                                   _errorResponses := _errorResponses d;
                                   _responseClass := Some obj;
                                   _notes := _notes d |}]> (objects h) |},
        self).

(** [param(self, name, description, paramType='query', dataType='string',
    required=True)]: an omitted keyword argument is [None]. *)
Definition param (h : Heap) (self : loc) (name description : string)
    (paramType dataType : option string) (required : option bool)
  : option (Heap * loc) :=
  d ← objects h !! self;
  h' ← list_append h (_params d)
         (EParam {| name := name;
                    description := description;
                    paramType := default "query" paramType;
                    dataType := default "string" dataType;
                    allowMultiple := false;
                    required := default true required |});
  Some (h', self).

Definition notes_ (h : Heap) (self : loc) (notes : string)
  : option (Heap * loc) :=
  d ← objects h !! self;
  Some ({| lists := lists h;
           objects := <[self := {| _summary := _summary d;
                                   _params := _params d;
                                   _errorResponses := _errorResponses d;
                                   _responseClass := _responseClass d;
                                   _notes := Some notes |}]> (objects h) |},
        self).

(** [errorResponse(self, reason='A parameter was invalid.', code=400)]. *)
Definition errorResponse (h : Heap) (self : loc)
    (reason : option string) (code : option Z) : option (Heap * loc) :=
  d ← objects h !! self;
  h' ← list_append h (_errorResponses d)
         (EError {| message := default "A parameter was invalid." reason;
                    code := default 400 code |});
  Some (h', self).

(** One mutator call with its arguments, as it appears in a chain such as
    [Description('...').responseClass('User').param('id', '...')]. *)
Inductive Call :=
| CallParam (name description : string)
            (paramType dataType : option string) (required : option bool)
| CallNotes (notes : string)
| CallErrorResponse (reason : option string) (code : option Z)
| CallResponseClass (obj : string).

Definition call (h : Heap) (self : loc) (c : Call) : option (Heap * loc) :=
  match c with
  | CallParam n d pt dt r => param h self n d pt dt r
  | CallNotes n => notes_ h self n
  | CallErrorResponse r c => errorResponse h self r c
  | CallResponseClass o => responseClass h self o
  end.

(** A method chain [b.c1(...).c2(...)...]: each call is made on the value
    the previous one returned. *)
Fixpoint chain (h : Heap) (b : loc) (cs : list Call) : option (Heap * loc) :=
  match cs with
  | [] => Some (h, b)
  | c :: cs' => '(h', b') ← call h b c; chain h' b' cs'
  end.

(** What a reader of an exported dict sees in heap [h]: the three values
    and the current contents of the two referenced lists. *)
Record View := {
  v_summary : string;
  v_notes : option string;
  v_parameters : list Entry;
  v_errorResponses : list Entry;
  v_responseClass : option string
}.

Definition view (h : Heap) (e : Export) : option View :=
  ps ← lists h !! parameters e;
  es ← lists h !! errorResponses e;
  Some {| v_summary := summary e;
          v_notes := notes e;
          v_parameters := ps;
          v_errorResponses := es;
          v_responseClass := responseClass_ e |}.

(** The parameter dicts a sequence of calls declares, in call order. *)
Fixpoint declared_params (cs : list Call) : list Entry :=
  match cs with
  | [] => []
  | CallParam n d pt dt r :: cs' =>
      EParam {| name := n; description := d;
                paramType := default "query" pt;
                dataType := default "string" dt;
                allowMultiple := false;
                required := default true r |} :: declared_params cs'
  | _ :: cs' => declared_params cs'
  end.

(** The error-response dicts a sequence of calls declares, in call
    order. *)
Fixpoint declared_errors (cs : list Call) : list Entry :=
  match cs with
  | [] => []
  | CallErrorResponse r c :: cs' =>
      EError {| message := default "A parameter was invalid." r;
                code := default 400 c |} :: declared_errors cs'
  | _ :: cs' => declared_errors cs'
  end.

(** [b] refers to a [Description] whose two lists are distinct live
    objects holding [ps] and [es]: the shape [__init__] establishes. *)
Definition builder_at (h : Heap) (b : loc) (d : Description)
    (ps es : list Entry) : Prop :=
  objects h !! b = Some d ∧
  _params d ≠ _errorResponses d ∧
  lists h !! _params d = Some ps ∧
  lists h !! _errorResponses d = Some es.

End describe.

(** ** Python string methods used by the two files *)

Module pystr.

(** [s.partition(c)] for a one-character separator: the text before the
    first occurrence of [c] and, when there is one, the text after it. *)
Fixpoint cut (c : ascii) (s : string) : string * option string :=
  match s with
  | EmptyString => (EmptyString, None)
  | String a s' =>
      if decide (a = c) then (EmptyString, Some s')
      else let '(before, after) := cut c s' in (String a before, after)
  end.

(** [s.split(c)[0]]. *)
Definition split_head (c : ascii) (s : string) : string := (cut c s).1.

(** [s.split(c, 1)]: at most one split, at the first occurrence. *)
Definition split1 (c : ascii) (s : string) : list string :=
  match cut c s with
  | (before, None) => [before]
  | (before, Some after) => [before; after]
  end.

(** [c in s] for a one-character [c]. *)
Fixpoint contains (c : ascii) (s : string) : bool :=
  match s with
  | EmptyString => false
  | String a s' => if decide (a = c) then true else contains c s'
  end.

(** The ASCII capitals ['A'] to ['Z']. *)
Definition is_upper (a : ascii) : bool :=
  let n := N_of_ascii a in ((65 <=? n) && (n <=? 90))%N.

(** [str.lower] on a byte string: only the ASCII capitals change. *)
Definition lower_ascii (a : ascii) : ascii :=
  if is_upper a then ascii_of_N (N_of_ascii a + 32) else a.

Fixpoint lower (s : string) : string :=
  match s with
  | EmptyString => EmptyString
  | String a s' => String (lower_ascii a) (lower s')
  end.

(** [str.isspace] on one byte: space, tab, newline, vertical tab, form
    feed and carriage return. *)
Definition isspace (a : ascii) : bool :=
  let n := N_of_ascii a in
  ((n =? 32) || ((9 <=? n) && (n <=? 13)))%N.

Fixpoint lstrip (s : string) : string :=
  match s with
  | EmptyString => EmptyString
  | String a s' => if isspace a then lstrip s' else s
  end.

Fixpoint rstrip (s : string) : string :=
  match s with
  | EmptyString => EmptyString
  | String a s' =>
      match rstrip s' with
      | EmptyString => if isspace a then EmptyString else String a EmptyString
      | r => String a r
      end
  end.

(** [s.strip()]. *)
Definition strip (s : string) : string := rstrip (lstrip s).

(** [s[0:n]] and [s[n:]]; Python slices clamp to the length. *)
Definition slice_to (n : nat) (s : string) : string := String.substring 0 n s.

Fixpoint slice_from (n : nat) (s : string) : string :=
  match n, s with
  | O, _ => s
  | S n', String _ s' => slice_from n' s'
  | S _, EmptyString => EmptyString
  end.

(** Every character of [s] satisfies [P]. *)
Fixpoint all_chars (P : ascii → bool) (s : string) : bool :=
  match s with
  | EmptyString => true
  | String a s' => P a && all_chars P s'
  end.

Definition starts_with_space (s : string) : bool :=
  match s with
  | EmptyString => false
  | String a _ => isspace a
  end.

Fixpoint ends_with_space (s : string) : bool :=
  match s with
  | EmptyString => false
  | String a EmptyString => isspace a
  | String _ s' => ends_with_space s'
  end.

(** "[k] is [s] lower-cased": the same characters, except that each
    capital is replaced by its small letter. *)
Inductive lowercased_of : string → string → Prop :=
| lowercased_nil : lowercased_of EmptyString EmptyString
| lowercased_small a s k :
    is_upper a = false → lowercased_of s k →
    lowercased_of (String a s) (String a k)
| lowercased_capital a b s k :
    is_upper a = true → N_of_ascii b = (N_of_ascii a + 32)%N →
    lowercased_of s k →
    lowercased_of (String a s) (String b k).

(** "[k] is [s] with surrounding whitespace trimmed": [s] is [k] between
    two runs of whitespace, and [k] neither starts nor ends with
    whitespace. *)
Definition trimmed_of (s k : string) : Prop :=
  ∃ pre post,
    s = pre +:+ k +:+ post ∧
    all_chars isspace pre = true ∧ all_chars isspace post = true ∧
    starts_with_space k = false ∧ ends_with_space k = false.

(** Python 2 compares [str] values byte by byte. *)
Definition le (s1 s2 : string) : Prop := String.leb s1 s2 = true.

#[global] Instance le_dec : RelDecision le :=
  λ s1 s2, decide (String.leb s1 s2 = true).

(** [sorted] on a list of [str]. *)
Definition sorted (l : list string) : list string :=
  merge_sort le l.

End pystr.

(** ** girder/api/describe.py : class Describe *)

Module Describe.

(** One documented operation of a route, as [docs.routes] stores it. The
    [docs] module is not part of this slice; the endpoints below only
    pass these values through. *)
Record Operation := {
  httpMethod : string;
  nickname : string;
  info : describe.View
}.

(** The two module-level tables of [girder.api.docs] that the endpoints
    read: the set [docs.discovery] of resource names and the dict
    [docs.routes] from resource name to a dict from route path to the
    list of operations on that path. *)
Record Docs := {
  discovery : gset string;
  routes : gmap string (gmap string (list Operation))
}.

(** What the endpoints read from [cherrypy]: the request URL and
    [cherrypy.config['server']['api_root']]. *)
Record CherryPy := {
  url : string;
  api_root : string
}.

Record ResourceRef := { ref_path : string }.

Record ResourceListing := {
  rl_apiVersion : string;
  rl_swaggerVersion : string;
  rl_basePath : string;
  rl_apis : list ResourceRef
}.

Definition listResources (cp : CherryPy) (docs : Docs) : ResourceListing :=
  let protocol := pystr.split_head ":" (url cp) in
  {| rl_apiVersion := describe.API_VERSION;
     rl_swaggerVersion := "1.2";
     rl_basePath := protocol +:+ "://" +:+ api_root cp +:+ "/describe";
     rl_apis := (λ resource, {| ref_path := "/" +:+ resource |})
                  <$> pystr.sorted (elements (discovery docs)) |}.

Record Api := {
  path : string;
  operations : list Operation
}.

Record ApiDeclaration := {
  ad_apiVersion : string;
  ad_swaggerVersion : string;
  ad_basePath : string;
  ad_apis : list Api
}.

(** [docs.routes[resource].iteritems()] enumerates every item of the dict
    once, in an order Python 2 leaves unspecified; [map_to_list] fixes
    one such enumeration. *)
Definition describeResource (cp : CherryPy) (docs : Docs) (resource : string)
  : outcome ApiDeclaration :=
  match routes docs !! resource with
  | None =>
      Raise (RestException ("Invalid resource: " +:+ resource)
                           RestException_default_code)
  | Some table =>
      let protocol := pystr.split_head ":" (url cp) in
      Ok {| ad_apiVersion := describe.API_VERSION;
            ad_swaggerVersion := "1.2";
            ad_basePath := protocol +:+ "://" +:+ api_root cp;
            ad_apis := (λ '(route, ops), {| path := route; operations := ops |})
                         <$> map_to_list table |}
  end.

(** *** Route registration *)

(** A route handed to the route table. *)
Record Route := {
  method : string;
  pathPattern : list string;
  handlerId : string;
  description : option describe.View;
  visibleInDiscovery : bool
}.

(** The route table: per resource name the routes registered so far, and
    the discovery index read by [listResources]. *)
Record RouteTable := {
  table : gmap string (list Route);
  index : gset string
}.

Definition empty_table : RouteTable := {| table := ∅; index := ∅ |}.

Inductive RegisterError := DuplicateRouteError.

Definition same_key (r1 r2 : Route) : bool :=
  bool_decide (method r1 = method r2 ∧ pathPattern r1 = pathPattern r2).

(** Modelled from the spec: route registration ([Resource.route] in
    [girder/api/rest.py] and [girder/api/docs.py], neither in this slice).
    Section 4.2: [register(resourceName, method, pathPattern, handlerId,
    description, docVisible)] fails with [DuplicateRouteError] if the
    (method, pathPattern) pair already exists for that resource; section
    2: the table also tracks the discovery index, which section 4.2 reads
    as the resources having at least one doc-visible route. *)
Definition register (t : RouteTable) (resourceName : string) (r : Route)
  : RegisterError + RouteTable :=
  let rs := default [] (table t !! resourceName) in
  if existsb (same_key r) rs then inl DuplicateRouteError
  else inr {| table := <[resourceName := rs ++ [r]]> (table t);
              index := if visibleInDiscovery r
                       then {[resourceName]} ∪ index t
                       else index t |}.

(** The route tables that startup can build: successful registrations
    from the empty table. *)
Inductive reachable : RouteTable → Prop :=
| reachable_empty : reachable empty_table
| reachable_register t resourceName r t' :
    reachable t →
    register t resourceName r = inr t' →
    reachable t'.

(** A resource has a doc-visible route. *)
Definition has_visible_route (t : RouteTable) (resourceName : string) : Prop :=
  ∃ rs r, table t !! resourceName = Some rs ∧ r ∈ rs ∧
          visibleInDiscovery r = true.

End Describe.

(** ** girder/api/v1/user.py : class User *)

Module v1_user.

(** Values stored in documents (Python dicts with string keys). *)
Inductive value :=
| VNone
| VBool (b : bool)
| VInt (n : Z)
| VStr (s : string)
| VList (items : list string).

#[global] Instance value_eq_dec : EqDecision value.
Proof. solve_decision. Defined.

Abbreviation document := (gmap string value).

(** [AccessType] of [girder.constants]. *)
Inductive AccessType := NONE | READ | WRITE | ADMIN.

(** The parts of [cherrypy.request] the handlers use: the headers, the
    cookies sent by the client, and the [girderUser] attribute that
    [login] sets with [setattr]. *)
Record Request := {
  headers : gmap string string;
  cookie : gmap string string;
  girderUser : option document
}.

(** One entry of [cherrypy.response.cookie]: its value and the two
    attributes the handlers assign. *)
Record Morsel := {
  morsel_value : string;
  morsel_path : option string;
  morsel_expires : option Z
}.

Definition empty_morsel : Morsel :=
  {| morsel_value := EmptyString; morsel_path := None; morsel_expires := None |}.

(** Calls that leave the handler: reading a request header and the calls
    to the user, password and token models. *)
Inductive Event :=
| HeadersGet (name : string)
| UserFind (field key : string)
| PasswordAuthenticate (user : document) (password : string)
| CreateToken (user : document) (days : Z).

(** The state a request handler runs in. [store] is the external
    persistent store behind the models (users, tokens, settings, clock);
    [calls] records, oldest first, the calls made so far. *)
Record World (Store : Type) := {
  request : Request;
  response_cookie : gmap string Morsel;
  store : Store;
  calls : list Event
}.
Arguments request {Store} _.
Arguments response_cookie {Store} _.
Arguments store {Store} _.
Arguments calls {Store} _.

(** The collaborators of the [User] resource whose code is outside this
    file: the Python standard library, the request helper of [Resource]
    and the models.
    - [b64decode s] is [base64.b64decode(s)], [None] when it raises;
    - [py_str] is [str], [json_dumps] is [json.dumps] on a dict;
    - [getCurrentUser] is [Resource.getCurrentUser(returnToken=True)];
      without [returnToken] the same call returns only the user;
    - [user_find st field key] is the cursor of
      [model('user').find({field: key}, limit=1)];
    - [password_authenticate] is [model('password').authenticate];
    - [token_createToken st user days] is [model('token').createToken],
      returning the new token and the store holding it;
    - [user_hasAccess] and [user_getAccessLevel] are the access control
      queries of [model('user')];
    - [setting_lookup st key] is the stored setting, if one is
      configured. *)
Class Collaborators (Store : Type) := {
  b64decode : string → option string;
  py_str : value → string;
  json_dumps : document → string;
  getCurrentUser : Request → Store → option document * option document;
  user_find : Store → string → string → list document;
  password_authenticate : document → string → bool;
  token_createToken : Store → document → Z → document * Store;
  user_hasAccess : document → option document → AccessType → bool;
  user_getAccessLevel : document → option document → value;
  setting_lookup : Store → string → option Z;
  SettingKey_COOKIE_LIFETIME : string
}.

(** *** The handler monad: state and exceptions *)

Definition M (Store A : Type) : Type := World Store → outcome A * World Store.

#[global] Instance M_ret {Store} : MRet (M Store) :=
  λ A a w, (Ok a, w).

#[global] Instance M_bind {Store} : MBind (M Store) :=
  λ A B f m w,
    match m w with
    | (Ok a, w') => f a w'
    | (Raise e, w') => (Raise e, w')
    end.

Definition raise {Store A} (e : exn) : M Store A := λ w, (Raise e, w).

(** Reading and replacing the handler state. *)
Definition gets {Store A} (f : World Store → A) : M Store A :=
  λ w, (Ok (f w), w).

Definition modify {Store} (f : World Store → World Store) : M Store unit :=
  λ w, (Ok (), f w).

Definition record {Store} (ev : Event) : M Store unit :=
  modify (λ w, {| request := request w;
                  response_cookie := response_cookie w;
                  store := store w;
                  calls := calls w ++ [ev] |}).

(** The state after the further calls [evs]. *)
Definition logged {Store} (w : World Store) (evs : list Event) : World Store :=
  {| request := request w;
     response_cookie := response_cookie w;
     store := store w;
     calls := calls w ++ evs |}.

(** A handler action only ever adds to the record of calls. *)
Definition appends {Store A} (m : M Store A) : Prop :=
  ∀ w, ∃ evs, calls (m w).2 = calls w ++ evs.

(** [d[k]] on a dict. *)
Definition getitem {Store} (d : document) (k : string) : M Store value :=
  match d !! k with
  | Some v => mret v
  | None => raise (KeyError k)
  end.

(** [x[k]] where [x] is a dict or [None]. *)
Definition getitem_opt {Store} (x : option document) (k : string)
  : M Store value :=
  match x with
  | Some d => getitem d k
  | None => raise TypeError
  end.

(** Truth value of a dict-or-[None]: [None] and the empty dict are
    false. *)
Definition truthy (x : option document) : bool :=
  match x with
  | None => false
  | Some d => bool_decide (d ≠ ∅)
  end.

(** Truth value of a string-or-[None]. *)
Definition truthy_str (x : option string) : bool :=
  match x with
  | None => false
  | Some s => bool_decide (s ≠ EmptyString)
  end.

Section Handlers.
Context {Store : Type} `{!Collaborators Store}.

(** [cherrypy.request.headers.get(name)]. *)
Definition headers_get (name : string) : M Store (option string) :=
  _ ← record (HeadersGet name);
  gets (λ w, headers (request w) !! name).

(** [self.getCurrentUser(returnToken=True)]. *)
Definition getCurrentUser_returnToken
  : M Store (option document * option document) :=
  gets (λ w, getCurrentUser (request w) (store w)).

(** [self.getCurrentUser()]. *)
Definition getCurrentUser_ : M Store (option document) :=
  gets (λ w, (getCurrentUser (request w) (store w)).1).

(** [self.model('user').find({field: key}, limit=1)]. *)
Definition model_user_find (field key : string) : M Store (list document) :=
  _ ← record (UserFind field key);
  gets (λ w, user_find (store w) field key).

(** [self.model('password').authenticate(user, password)]. *)
Definition model_password_authenticate (user : document) (password : string)
  : M Store bool :=
  _ ← record (PasswordAuthenticate user password);
  mret (password_authenticate user password).

(** [self.model('token').createToken(user, days=days)]. *)
Definition model_token_createToken (user : document) (days : Z)
  : M Store document :=
  _ ← record (CreateToken user days);
  created ← gets (λ w, token_createToken (store w) user days);
  _ ← modify (λ w, {| request := request w;
                      response_cookie := response_cookie w;
                      store := created.2;
                      calls := calls w |});
  mret created.1.

(** [setattr(cherrypy.request, 'girderUser', user)]. *)
Definition set_girderUser (user : document) : M Store unit :=
  modify (λ w, {| request := {| headers := headers (request w);
                                cookie := cookie (request w);
                                girderUser := Some user |};
                  response_cookie := response_cookie w;
                  store := store w;
                  calls := calls w |}).

Definition update_cookie (f : gmap string Morsel → gmap string Morsel)
  : M Store unit :=
  modify (λ w, {| request := request w;
                  response_cookie := f (response_cookie w);
                  store := store w;
                  calls := calls w |}).

(** [cookie[key] = v]: the morsel already stored under [key], or a new
    one, receives the value. *)
Definition cookie_set (key v : string) : M Store unit :=
  update_cookie (λ jar,
    let m := default empty_morsel (jar !! key) in
    <[key := {| morsel_value := v;
                morsel_path := morsel_path m;
                morsel_expires := morsel_expires m |}]> jar).

(** [cookie[key]['path'] = p]. *)
Definition cookie_set_path (key p : string) : M Store unit :=
  update_cookie (alter (λ m, {| morsel_value := morsel_value m;
                                morsel_path := Some p;
                                morsel_expires := morsel_expires m |}) key).

(** [cookie[key]['expires'] = n]. *)
Definition cookie_set_expires (key : string) (n : Z) : M Store unit :=
  update_cookie (alter (λ m, {| morsel_value := morsel_value m;
                                morsel_path := morsel_path m;
                                morsel_expires := Some n |}) key).

(** Modelled from the spec: [model('setting').get(key, default=d)]
    ([girder/models/setting.py], not in this slice) gives the configured
    value, or [d] when none is configured (section 4.4: configurable
    lifetime, default 180 days).  Stored lifetimes are integers, on which
    [int] is the identity. *)
Definition setting_get (st : Store) (key : string) (d : Z) : Z :=
  default d (setting_lookup st key).

(** Modelled from the spec: [Resource.filterDocument(doc, allow=keys)]
    ([girder/api/rest.py], not in this slice) returns a copy of the
    document containing only the allowed fields (section 4.3). *)
Definition filterDocument (doc : document) (allow : list string) : document :=
  filter (λ kv, kv.1 ∈ allow) doc.

(** The attributes of a [User] resource instance. *)
Record User := {
  resourceName : string;
  COOKIE_LIFETIME : Z
}.

(** [User.__init__]: the attributes it computes (the route registrations
    it also performs do not affect the handlers). *)
Definition User_init (st : Store) : User :=
  {| resourceName := "user";
     COOKIE_LIFETIME := setting_get st SettingKey_COOKIE_LIFETIME 180 |}.

Definition base_keys : list string :=
  ["_id"; "login"; "public"; "firstName"; "lastName"; "admin"; "created"].

Definition admin_keys : list string :=
  ["size"; "email"; "groups"; "groupInvites"].

Definition _filter (user : option document) : M Store (option document) :=
  match user with
  | None => mret None
  | Some user =>
      currentUser ← getCurrentUser_;
      let keys := base_keys in
      let keys := if user_hasAccess user currentUser ADMIN
                  then keys ++ admin_keys else keys in
      let filtered := filterDocument user keys in
      let filtered :=
        <["_accessLevel" := user_getAccessLevel user currentUser]> filtered in
      mret (Some filtered)
  end.

Definition _sendAuthTokenCookie (self : User) (user : document)
  : M Store document :=
  token ← model_token_createToken user (COOKIE_LIFETIME self);
  uid ← getitem user "_id";
  tid ← getitem token "_id";
  _ ← cookie_set "authToken"
        (json_dumps {[ "userId" := VStr (py_str uid);
                       "token" := VStr (py_str tid) ]});
  _ ← cookie_set_path "authToken" "/";
  _ ← cookie_set_expires "authToken" (COOKIE_LIFETIME self * 3600 * 24);
  mret token.

Definition _deleteAuthTokenCookie : M Store unit :=
  _ ← cookie_set "authToken" EmptyString;
  _ ← cookie_set_path "authToken" "/";
  cookie_set_expires "authToken" 0.

Record AuthToken := {
  token : value;
  expires : value;
  userId : value
}.

Record LoginResponse := {
  user : option document;
  authToken : AuthToken;
  message : string
}.

(** The body of [if not user:] in [login]: HTTP Basic authentication. It
    yields the values bound to [user] and [token] afterwards. *)
Definition login_basic (self : User)
  : M Store (option document * option document) :=
  authHeader ← headers_get "Authorization";
  let header := default EmptyString authHeader in
  if negb (truthy_str authHeader) ||
     negb (bool_decide (pystr.slice_to 6 header = "Basic "))
  then raise (RestException "Use HTTP Basic Authentication" 401)
  else
    match b64decode (pystr.slice_from 6 header) with
    | None => raise (RestException "Invalid HTTP Authorization header"
                                   RestException_default_code)
    | Some credentials =>
        match pystr.split1 ":" credentials with
        | [login; password] =>
            let login := pystr.strip (pystr.lower login) in
            let loginField :=
              if pystr.contains "@" login then "email" else "login" in
            cursor ← model_user_find loginField login;
            match cursor with
            | [] => raise (RestException "Login failed." 403)
            | user :: _ =>
                ok ← model_password_authenticate user password;
                if negb ok then raise (RestException "Login failed." 403)
                else
                  _ ← set_girderUser user;
                  token ← _sendAuthTokenCookie self user;
                  mret (Some user, Some token)
            end
        | _ => raise ValueError
        end
    end.

Definition login (self : User) : M Store LoginResponse :=
  '(user, token) ← getCurrentUser_returnToken;
  '(user, token) ← (if negb (truthy user) then login_basic self
                    else mret (user, token));
  filtered ← _filter user;
  tid ← getitem_opt token "_id";
  exp ← getitem_opt token "expires";
  uid ← getitem_opt user "_id";
  mret {| user := filtered;
          authToken := {| token := tid; expires := exp; userId := uid |};
          message := "Login succeeded." |}.

Definition logout : M Store string :=
  _ ← _deleteAuthTokenCookie;
  mret "Logged out.".

End Handlers.

End v1_user.

(** ** A concrete deployment

    One implementation of the collaborators, used to run the handlers on
    concrete requests: CPython's base64 decoder, an in-memory store, and
    session resolution as section 4.4 of the spec describes it. *)

Module deployment.
Import v1_user.

(** The base64 alphabet: the 6-bit value of a character, if it has one. *)
Definition b64_value (c : ascii) : option N :=
  let n := N_of_ascii c in
  if ((65 <=? n) && (n <=? 90))%N then Some (n - 65)%N
  else if ((97 <=? n) && (n <=? 122))%N then Some (n - 71)%N
  else if ((48 <=? n) && (n <=? 57))%N then Some (n + 4)%N
  else if (n =? 43)%N then Some 62%N
  else if (n =? 47)%N then Some 63%N
  else None.

Definition b64_pad : ascii := "="%char.

(** [binascii_find_valid(s, len, num)]: the [num+1]-th character of [s]
    that is in the alphabet or is the padding character. *)
Fixpoint find_valid (s : string) (num : nat) : option ascii :=
  match s with
  | EmptyString => None
  | String c s' =>
      if bool_decide (c = b64_pad) || bool_decide (is_Some (b64_value c))
      then match num with
           | O => Some c
           | S num' => find_valid s' num'
           end
      else find_valid s' num
  end.

(** [binascii.a2b_base64]: characters outside the alphabet are skipped,
    a padding sequence ends the input, and leftover bits at the end are
    an error ("Incorrect padding"). *)
Fixpoint a2b_base64 (s : string) (quad_pos leftbits leftchar : N)
  : option string :=
  match s with
  | EmptyString => if (leftbits =? 0)%N then Some EmptyString else None
  | String c s' =>
      if bool_decide (c = b64_pad) then
        if (quad_pos <? 2)%N ||
           ((quad_pos =? 2)%N &&
            negb (bool_decide (find_valid s 1 = Some b64_pad)))
        then a2b_base64 s' quad_pos leftbits leftchar
        else Some EmptyString
      else
        match b64_value c with
        | None => a2b_base64 s' quad_pos leftbits leftchar
        | Some v =>
            let quad_pos := ((quad_pos + 1) mod 4)%N in
            let leftchar := N.lor (N.shiftl leftchar 6) v in
            let leftbits := (leftbits + 6)%N in
            if (8 <=? leftbits)%N then
              let leftbits := (leftbits - 8)%N in
              let byte := N.land (N.shiftr leftchar leftbits) 255 in
              let leftchar := N.land leftchar (N.shiftl 1 leftbits - 1)%N in
              String (ascii_of_N byte) <$> a2b_base64 s' quad_pos leftbits leftchar
            else a2b_base64 s' quad_pos leftbits leftchar
        end
  end.

(** [base64.b64decode(s)]; [None] when it raises [TypeError]. *)
Definition py_b64decode (s : string) : option string := a2b_base64 s 0 0 0.

(** [str(v)] on the values used as identifiers. *)
Definition str (v : value) : string :=
  match v with
  | VNone => "None"
  | VBool true => "True"
  | VBool false => "False"
  | VInt n => pretty n
  | VStr s => s
  | VList items => "[" +:+ String.concat ", " items +:+ "]"
  end.

Definition dquote : string := String (ascii_of_N 34) EmptyString.

(** [json.dumps] on a dict of strings, without escaping. *)
Definition dumps_item (kv : string * value) : string :=
  dquote +:+ kv.1 +:+ dquote +:+ ": " +:+ dquote +:+ str kv.2 +:+ dquote.

Definition dumps (d : document) : string :=
  "{" +:+ String.concat ", " (dumps_item <$> map_to_list d) +:+ "}".

(** The in-memory store: user and token collections, settings, clock. *)
Record Store := {
  users : list document;
  tokens : list document;
  settings : gmap string Z;
  now : Z
}.

Definition find (st : Store) (field key : string) : list document :=
  take 1 (filter (λ d : document, d !! field = Some (VStr key)) (users st)).

(** Password check against the credential stored in the user document. *)
Definition authenticate (user : document) (password : string) : bool :=
  bool_decide (user !! "salt" = Some (VStr password)).

Definition createToken (st : Store) (user : document) (days : Z)
  : document * Store :=
  let t : document :=
    {[ "_id" := VStr ("token" +:+ pretty (length (tokens st)));
       "userId" := default VNone (user !! "_id");
       "created" := VInt (now st);
       "expires" := VInt (now st + days * 86400) ]} in
  (t, {| users := users st; tokens := tokens st ++ [t];
         settings := settings st; now := now st |}).

(** The session cookie a token corresponds to. *)
Definition session_cookie (t : document) : string :=
  dumps {[ "userId" := VStr (str (default VNone (t !! "userId")));
           "token" := VStr (str (default VNone (t !! "_id"))) ]}.

Definition unexpired (st : Store) (t : document) : bool :=
  match t !! "expires" with
  | Some (VInt e) => bool_decide (now st <= e)
  | _ => false
  end.

(** Modelled from the spec: [Resource.getCurrentUser]
    ([girder/api/rest.py], not in this slice), section 4.4
    [resolveCurrentIdentity]: an identity already attached to the request
    is returned; otherwise the [authToken] cookie is read, the token it
    names looked up, and the owning identity returned if the token exists
    and has not expired; in every other case the caller is anonymous. *)
Definition currentUser (req : Request) (st : Store)
  : option document * option document :=
  match girderUser req with
  | Some u => (Some u, None)
  | None =>
      match cookie req !! "authToken" with
      | None => (None, None)
      | Some c =>
          match filter (λ t, session_cookie t = c) (tokens st) with
          | [] => (None, None)
          | t :: _ =>
              if unexpired st t then
                match filter (λ u : document, u !! "_id" = t !! "userId")
                             (users st) with
                | [] => (None, Some t)
                | u :: _ => (Some u, Some t)
                end
              else (None, Some t)
          end
      end
  end.

Definition level_of (a : AccessType) : Z :=
  match a with NONE => -1 | READ => 0 | WRITE => 1 | ADMIN => 2 end.

(** Access level of [requester] on [user]: administrators and the user
    itself have ADMIN, anyone reads a public user. *)
Definition accessLevel (user : document) (requester : option document) : Z :=
  match requester with
  | Some r =>
      if bool_decide (r !! "admin" = Some (VBool true)) ||
         bool_decide (r !! "_id" = user !! "_id")
      then 2
      else if bool_decide (user !! "public" = Some (VBool true)) then 0 else -1
  | None => if bool_decide (user !! "public" = Some (VBool true)) then 0 else -1
  end.

#[global] Instance collaborators : Collaborators Store := {|
  b64decode := py_b64decode;
  py_str := str;
  json_dumps := dumps;
  getCurrentUser := currentUser;
  user_find := find;
  password_authenticate := authenticate;
  token_createToken := createToken;
  user_hasAccess := λ user requester level,
    bool_decide (level_of level <= accessLevel user requester);
  user_getAccessLevel := λ user requester, VInt (accessLevel user requester);
  setting_lookup := λ st key, settings st !! key;
  SettingKey_COOKIE_LIFETIME := "core.cookie_lifetime"
|}.

(** A user, a store holding it, and requests against it. *)
Definition alice : document :=
  {[ "_id" := VStr "5a1"; "login" := VStr "alice"; "email" := VStr "a@x.com";
     "firstName" := VStr "A"; "lastName" := VStr "L";
     "admin" := VBool false; "public" := VBool true;
     "salt" := VStr "p@ss"; "size" := VInt 0 ]}.

Definition alice_token : document :=
  {[ "_id" := VStr "token0"; "userId" := VStr "5a1";
     "created" := VInt 1000; "expires" := VInt 90000 ]}.

Definition store0 : Store :=
  {| users := [alice]; tokens := []; settings := ∅; now := 2000 |}.

Definition store1 : Store :=
  {| users := [alice]; tokens := [alice_token]; settings := ∅; now := 2000 |}.

Definition world (st : Store) (auth : option string) (session : option string)
  : World Store :=
  {| request := {| headers := from_option (λ a, {[ "Authorization" := a ]}) ∅ auth;
                   cookie := from_option (λ c, {[ "authToken" := c ]}) ∅ session;
                   girderUser := None |};
     response_cookie := ∅;
     store := st;
     calls := [] |}.

(** Requests used below: no credentials at all, an undecodable header,
    Basic credentials [bob:x], [alice:x], [alice:p@ss] and [ALICE :p:q],
    and a request resuming alice's session. *)
Definition anonymous : World Store := world store0 None None.
Definition undecodable : World Store := world store0 (Some "Basic a") None.
Definition as_bob : World Store := world store0 (Some "Basic Ym9iOng=") None.
Definition as_alice_wrong : World Store :=
  world store0 (Some "Basic YWxpY2U6eA==") None.
Definition as_alice : World Store :=
  world store0 (Some "Basic YWxpY2U6cEBzcw==") None.
Definition as_alice_spaced : World Store :=
  world store0 (Some "Basic QUxJQ0UgOnA6cQ==") None.
Definition resuming : World Store :=
  world store1 None (Some (session_cookie alice_token)).
Definition resuming_as_bob : World Store :=
  world store1 (Some "Basic Ym9iOng=") (Some (session_cookie alice_token)).

(** A route table and the [docs] tables of a service with two documented
    resources and the undocumented [describe] resource itself. *)
Definition route (m : string) (pattern : list string) (handler : string)
    (visible : bool) : Describe.Route :=
  {| Describe.method := m;
     Describe.pathPattern := pattern;
     Describe.handlerId := handler;
     Describe.description := None;
     Describe.visibleInDiscovery := visible |}.

Definition table1 : Describe.RouteTable :=
  {| Describe.table := {[ "user" := [route "GET" [] "find" true] ]};
     Describe.index := {[ "user" ]} |}.

Definition table2 : Describe.RouteTable :=
  {| Describe.table :=
       {[ "user" := [route "GET" [] "find" true];
          "describe" := [route "GET" [] "listResources" false] ]};
     Describe.index := {[ "user" ]} |}.

Definition table3 : Describe.RouteTable :=
  {| Describe.table :=
       {[ "user" := [route "GET" [] "find" true];
          "describe" := [route "GET" [] "listResources" false];
          "folder" := [route "GET" [":id"] "getFolder" true] ]};
     Describe.index := {[ "user"; "folder" ]} |}.

Definition find_operation : Describe.Operation :=
  {| Describe.httpMethod := "GET";
     Describe.nickname := "find";
     Describe.info :=
       {| describe.v_summary := "List or search for users.";
          describe.v_notes := None;
          describe.v_parameters := [];
          describe.v_errorResponses := [];
          describe.v_responseClass := Some "User" |} |}.

Definition docs3 : Describe.Docs :=
  {| Describe.discovery := Describe.index table3;
     Describe.routes := {[ "user" := {[ "/user" := [find_operation] ]} ]} |}.

Definition site : Describe.CherryPy :=
  {| Describe.url := "http://localhost:8080/api/v1/describe";
     Describe.api_root := "localhost:8080/api/v1" |}.

End deployment.

(** ** Chains of Description calls: what the scalar fields end up as *)

Module describe_chain.
Import describe.

(** The argument of the last [notes] call of a chain, [acc] if there is
    none. *)
Fixpoint last_notes (acc : option string) (cs : list Call) : option string :=
  match cs with
  | [] => acc
  | CallNotes n :: cs' => last_notes (Some n) cs'
  | _ :: cs' => last_notes acc cs'
  end.

(** The argument of the last [responseClass] call of a chain, [acc] if
    there is none. *)
Fixpoint last_responseClass (acc : option string) (cs : list Call)
  : option string :=
  match cs with
  | [] => acc
  | CallResponseClass o :: cs' => last_responseClass (Some o) cs'
  | _ :: cs' => last_responseClass acc cs'
  end.

(** A parameter dict, with [allowMultiple] false. *)
Definition is_single_param (e : Entry) : Prop :=
  ∃ p, e = EParam p ∧ allowMultiple p = false.

(** An error-response dict. *)
Definition is_error (e : Entry) : Prop := ∃ r, e = EError r.

End describe_chain.

(** ** girder/api/v1/user.py : the other handlers of class User *)

Module v1_user_endpoints.
Import v1_user.

(** The further collaborators of these handlers, all of
    [girder/api/rest.py] and the user model, outside this file:
    - [getPagingParameters params defaultSortField] is
      [Resource.getPagingParameters], giving (limit, offset, sort) or
      raising;
    - [user_search st text user offset limit sort] is the result of
      [model('user').search(text=.., user=.., offset=.., limit=..,
      sort=..)];
    - [requireParams required provided] is [Resource.requireParams],
      [Some e] when it raises [e];
    - [user_createUser st login password email firstName lastName] is
      [model('user').createUser], with the store it leaves. *)
Class EndpointCollaborators (Store : Type) := {
  getPagingParameters :
    gmap string string → string → exn + (Z * Z * list (string * Z));
  user_search :
    Store → option string → option document → Z → Z → list (string * Z) →
    list document;
  requireParams : list string → gmap string string → option exn;
  user_createUser :
    Store → string → string → string → string → string →
    outcome document * Store
}.

(** The response cookies other than [authToken] are the same in [w'] as
    in [w]. *)
Definition other_cookies_kept {Store} (w w' : World Store) : Prop :=
  ∀ k, k ≠ "authToken" → response_cookie w' !! k = response_cookie w !! k.

(** Nothing but the record of calls differs between [w] and [w']. *)
Definition only_calls_added {Store} (w w' : World Store) : Prop :=
  ∃ evs, w' = logged w evs.

Section Endpoints.
Context {Store : Type} `{!Collaborators Store} `{!EndpointCollaborators Store}.

(** A list comprehension [[f(x) for x in xs]] whose body is a handler
    action. *)
Fixpoint comprehension {A B} (f : A → M Store B) (xs : list A)
  : M Store (list B) :=
  match xs with
  | [] => mret []
  | x :: xs' => y ← f x; ys ← comprehension f xs'; mret (y :: ys)
  end.

(** [params[k]] on the request parameters. *)
Definition params_getitem (params : gmap string string) (k : string)
  : M Store string :=
  match params !! k with
  | Some v => mret v
  | None => raise (KeyError k)
  end.

Definition find (params : gmap string string)
  : M Store (list (option document)) :=
  match getPagingParameters params "lastName" with
  | inl e => raise e
  | inr (limit, offset, sort) =>
      currentUser ← getCurrentUser_;
      users ← gets (λ w, user_search (store w) (params !! "text") currentUser
                                     offset limit sort);
      comprehension (λ user, _filter (Some user)) users
  end.

Definition getMe : M Store (option document) :=
  currentUser ← getCurrentUser_;
  _filter currentUser.

Definition createUser (self : User) (params : gmap string string)
  : M Store (option document) :=
  match requireParams ["firstName"; "lastName"; "login"; "password"; "email"]
                      params with
  | Some e => raise e
  | None =>
      login ← params_getitem params "login";
      password ← params_getitem params "password";
      email ← params_getitem params "email";
      firstName ← params_getitem params "firstName";
      lastName ← params_getitem params "lastName";
      created ← gets (λ w, user_createUser (store w) login password email
                                           firstName lastName);
      _ ← modify (λ w, {| request := request w;
                          response_cookie := response_cookie w;
                          store := created.2;
                          calls := calls w |});
      match created.1 with
      | Raise e => raise e
      | Ok user =>
          _ ← set_girderUser user;
          _ ← _sendAuthTokenCookie self user;
          _filter (Some user)
      end
  end.

End Endpoints.

End v1_user_endpoints.

(** ** The concrete deployment, continued *)

Module deployment_endpoints.
Import v1_user v1_user_endpoints deployment.

(** [Resource.requireParams]: the first required parameter that is not
    provided is reported. *)
Fixpoint require (required : list string) (provided : gmap string string)
  : option exn :=
  match required with
  | [] => None
  | k :: required' =>
      match provided !! k with
      | Some _ => require required' provided
      | None =>
          Some (RestException ("Parameter '" +:+ k +:+ "' is required.") 400)
      end
  end.

(** Creation of a user document; a login or email already in use is
    refused and the store kept. *)
Definition create (st : Store) (login password email firstName lastName : string)
  : outcome document * Store :=
  if bool_decide (deployment.find st "login" login = [] ∧
                 deployment.find st "email" email = [])
  then
    let u : document :=
      {[ "_id" := VStr ("user" +:+ pretty (length (users st)));
         "login" := VStr login; "email" := VStr email;
         "firstName" := VStr firstName; "lastName" := VStr lastName;
         "admin" := VBool false; "public" := VBool true;
         "salt" := VStr password ]} in
    (Ok u, {| users := users st ++ [u]; tokens := tokens st;
              settings := settings st; now := now st |})
  else (Raise (RestException "That login or email is already in use." 400),
        st).

#[global] Instance endpoint_collaborators : EndpointCollaborators Store := {|
  getPagingParameters := λ params defaultSortField,
    inr (50, 0, [(defaultSortField, 1)]);
  user_search := λ st text user offset limit sort, users st;
  requireParams := require;
  user_createUser := create
|}.

Definition bob_params : gmap string string :=
  {[ "login" := "bob"; "password" := "hunter2"; "email" := "b@x.com";
     "firstName" := "B"; "lastName" := "O" ]}.

Definition incomplete_params : gmap string string :=
  {[ "login" := "bob"; "password" := "hunter2" ]}.

(** A request whose Basic credentials decode to [abc], without colon. *)
Definition colonless : World Store := world store0 (Some "Basic YWJj") None.

(** Basic credentials [ A@X.com:p@ss]: an email address with a leading
    space and capitals. *)
Definition as_email : World Store :=
  world store0 (Some "Basic IEFAWC5jb206cEBzcw==") None.

(** A response that already carries another cookie. *)
Definition with_other_cookie (w : World Store) : World Store :=
  {| request := request w;
     response_cookie :=
       <[ "lang" := {| morsel_value := "en"; morsel_path := None;
                       morsel_expires := None |} ]> (response_cookie w);
     store := store w;
     calls := calls w |}.

End deployment_endpoints.

(** * Properties *)

(** ** The Description builder *)

Section DescriptionBuilder.
Import describe.

Lemma Description_init_builder h summary :
  ∃ d, builder_at (Description_init h summary).1
                  (Description_init h summary).2 d [] [] ∧
       _summary d = summary ∧ _notes d = None ∧ _responseClass d = None.
Proof.
  unfold Description_init, new_list; simpl.
  set (l1 := fresh (dom (lists h))).
  set (l2 := fresh (dom (<[l1:=[]]> (lists h)))).
  assert (Hne : l1 ≠ l2).
  { intros Heq. pose proof (is_fresh (dom (<[l1:=[]]> (lists h)))) as Hf.
    fold l2 in Hf. rewrite <- Heq in Hf. apply Hf.
    rewrite dom_insert_L. set_solver. }
  eexists. split.
  { unfold builder_at; simpl. split_and!.
    - by rewrite lookup_insert_eq.
    - done.
    - rewrite lookup_insert_ne by done. by rewrite lookup_insert_eq.
    - by rewrite lookup_insert_eq. }
  done.
Qed.

Lemma call_builder h b d ps es c :
  builder_at h b d ps es →
  ∃ h' d', call h b c = Some (h', b) ∧
           builder_at h' b d' (ps ++ declared_params [c])
                              (es ++ declared_errors [c]) ∧
           _params d' = _params d ∧
           _errorResponses d' = _errorResponses d ∧
           _summary d' = _summary d.
Proof.
  intros (Hb & Hne & Hps & Hes).
  destruct c as [n ds pt dt r | n | r cd | o]; simpl.
  - unfold param, list_append. rewrite Hb; simpl. rewrite Hps; simpl.
    exists {| lists := <[_params d := ps ++ [EParam
                {| name := n; description := ds;
                   paramType := default "query" pt;
                   dataType := default "string" dt;
                   allowMultiple := false;
                   required := default true r |}]]> (lists h);
              objects := objects h |}, d.
    split; [done|]. split; [|done].
    unfold builder_at; simpl. split_and!; [done|done| |].
    + by rewrite lookup_insert_eq.
    + rewrite lookup_insert_ne by done. by rewrite app_nil_r.
  - unfold notes_. rewrite Hb; simpl.
    eexists _, _. split; [reflexivity|].
    unfold builder_at; simpl. rewrite lookup_insert_eq, !app_nil_r. done.
  - unfold errorResponse, list_append. rewrite Hb; simpl. rewrite Hes; simpl.
    exists {| lists := <[_errorResponses d := es ++ [EError
                {| message := default "A parameter was invalid." r;
                   code := default 400 cd |}]]> (lists h);
              objects := objects h |}, d.
    split; [done|]. split; [|done].
    unfold builder_at; simpl. split_and!; [done|done| |].
    + rewrite lookup_insert_ne by done. by rewrite app_nil_r.
    + by rewrite lookup_insert_eq.
  - unfold responseClass. rewrite Hb; simpl.
    eexists _, _. split; [reflexivity|].
    unfold builder_at; simpl. rewrite lookup_insert_eq, !app_nil_r. done.
Qed.

Lemma chain_builder cs : ∀ h b d ps es,
  builder_at h b d ps es →
  ∃ h' d', chain h b cs = Some (h', b) ∧
           builder_at h' b d' (ps ++ declared_params cs)
                              (es ++ declared_errors cs) ∧
           _params d' = _params d ∧
           _errorResponses d' = _errorResponses d ∧
           _summary d' = _summary d.
Proof.
  induction cs as [|c cs IH]; intros h b d ps es Hb.
  - exists h, d. simpl. rewrite !app_nil_r. done.
  - destruct (call_builder h b d ps es c Hb)
      as (h1 & d1 & Hc & Hb1 & Hp1 & He1 & Hs1).
    destruct (IH _ _ _ _ _ Hb1) as (h2 & d2 & Hch & Hb2 & Hp2 & He2 & Hs2).
    exists h2, d2. split; [by simpl; rewrite Hc|].
    split; [|by rewrite Hp2, He2, Hs2].
    assert (Hpar : ∀ c cs, declared_params (c :: cs)
                           = declared_params [c] ++ declared_params cs)
      by (by intros []).
    assert (Herr : ∀ c cs, declared_errors (c :: cs)
                           = declared_errors [c] ++ declared_errors cs)
      by (by intros []).
    rewrite (Hpar c cs), (Herr c cs), !app_assoc. done.
Qed.

Lemma view_builder h b d ps es :
  builder_at h b d ps es →
  ∃ e, asDict h b = Some e ∧
       parameters e = _params d ∧ errorResponses e = _errorResponses d ∧
       view h e = Some {| v_summary := _summary d;
                          v_notes := _notes d;
                          v_parameters := ps;
                          v_errorResponses := es;
                          v_responseClass := _responseClass d |}.
Proof.
  intros (Hb & Hne & Hps & Hes).
  unfold asDict. rewrite Hb; simpl. eexists. split; [done|].
  unfold view; simpl. rewrite Hps, Hes. done.
Qed.

(** C8: every mutator call on a builder (one made by [Description(...)]
    and any chain of earlier calls) returns the very reference it was
    called on, so a chain ends on the builder it started from, and the
    [parameters] list of the [asDict] export holds the declared
    parameters in the order of the [param] calls. *)
Theorem Description_mutators_return_self_and_keep_order
    (h : Heap) (s : string) (cs : list Call) (c : Call) :
  let h0 := (Description_init h s).1 in
  let b := (Description_init h s).2 in
  ∃ h1 h2 e v,
    chain h0 b cs = Some (h1, b) ∧
    call h1 b c = Some (h2, b) ∧
    asDict h1 b = Some e ∧
    view h1 e = Some v ∧
    v_parameters v = declared_params cs.
Proof.
  intros h0 b.
  destruct (Description_init_builder h s) as (d0 & Hb0 & _).
  destruct (chain_builder cs _ _ _ _ _ Hb0) as (h1 & d1 & Hch & Hb1 & _).
  destruct (call_builder _ _ _ _ _ c Hb1) as (h2 & d2 & Hc & _).
  destruct (view_builder _ _ _ _ _ Hb1) as (e & He & _ & _ & Hv).
  exists h1, h2, e. eexists. split_and!; try done.
Qed.

(** C9, as stated, fails: the dict exported from a fresh builder shows an
    empty parameter list, and after one later [param] call on the builder
    the same dict shows one parameter. *)
Lemma asDict_snapshot_counterexample :
  let h0 := (Description_init empty_heap "Get a user by ID.").1 in
  let b := (Description_init empty_heap "Get a user by ID.").2 in
  ∃ e h1,
    asDict h0 b = Some e ∧
    param h0 b "id" "The ID of the user." (Some "path") None None
      = Some (h1, b) ∧
    v_parameters <$> view h0 e = Some [] ∧
    v_parameters <$> view h1 e
      = Some [EParam {| name := "id"; description := "The ID of the user.";
                        paramType := "path"; dataType := "string";
                        allowMultiple := false; required := true |}] ∧
    view h1 e ≠ view h0 e.
Proof.
  vm_compute. eexists _, _. split_and!; try reflexivity. discriminate.
Qed.

(** C9, amended: the exported dict carries the builder's summary, notes
    and response class as values, which later mutator calls on the builder
    never change in it, but its two sequences are the builder's own list
    objects: after later calls the exported dict shows the earlier
    entries followed by the entries of the later [param] and
    [errorResponse] calls. *)
Theorem asDict_shares_lists
    (h : Heap) (s : string) (cs later : list Call) :
  let h0 := (Description_init h s).1 in
  let b := (Description_init h s).2 in
  ∃ h1 h2 e v,
    chain h0 b cs = Some (h1, b) ∧
    asDict h1 b = Some e ∧
    view h1 e = Some v ∧
    chain h1 b later = Some (h2, b) ∧
    view h2 e = Some {| v_summary := v_summary v;
                        v_notes := v_notes v;
                        v_parameters :=
                          v_parameters v ++ declared_params later;
                        v_errorResponses :=
                          v_errorResponses v ++ declared_errors later;
                        v_responseClass := v_responseClass v |}.
Proof.
  intros h0 b.
  destruct (Description_init_builder h s) as (d0 & Hb0 & _).
  destruct (chain_builder cs _ _ _ _ _ Hb0) as (h1 & d1 & Hch & Hb1 & _).
  destruct (chain_builder later _ _ _ _ _ Hb1)
    as (h2 & d2 & Hch2 & Hb2 & Hp & He & _).
  destruct (view_builder _ _ _ _ _ Hb1) as (e & HeD & Hpe & Hee & Hv).
  exists h1, h2, e. eexists. split_and!; try done.
  destruct Hb2 as (_ & _ & Hps2 & Hes2).
  unfold view. rewrite Hpe, Hee, <- Hp, <- He, Hps2, Hes2. simpl.
  unfold asDict in HeD. destruct Hb1 as (Hob & _). rewrite Hob in HeD.
  simpl in HeD. injection HeD as <-. done.
Qed.

End DescriptionBuilder.

(** ** Ordering of Python byte strings *)

Section StringOrder.

Lemma ascii_compare_refl a : Ascii.compare a a = Eq.
Proof. unfold Ascii.compare. apply N.compare_refl. Qed.

Lemma ascii_compare_trans a b c o :
  o ≠ Eq →
  (Ascii.compare a b = o ∨ Ascii.compare a b = Eq) →
  (Ascii.compare b c = o ∨ Ascii.compare b c = Eq) →
  Ascii.compare a c = o ∨ (Ascii.compare a b = Eq ∧ Ascii.compare b c = Eq).
Proof.
  intros Ho [Hab|Hab] [Hbc|Hbc].
  - left. unfold Ascii.compare in *. destruct o; [done| |].
    + rewrite N.compare_lt_iff in *. lia.
    + rewrite N.compare_gt_iff in *. lia.
  - left. apply Ascii.compare_eq_iff in Hbc. by subst.
  - left. apply Ascii.compare_eq_iff in Hab. by subst.
  - by right.
Qed.

Lemma string_compare_le_trans s1 : ∀ s2 s3,
  String.compare s1 s2 ≠ Gt →
  String.compare s2 s3 ≠ Gt →
  String.compare s1 s3 ≠ Gt.
Proof.
  induction s1 as [|a s1 IH]; intros [|b s2] [|c s3]; simpl; try done.
  intros H12 H23.
  destruct (ascii_compare_trans a b c Lt) as [Hlt|[Hab Hbc]]; [done| | | |].
  - destruct (Ascii.compare a b); [by right|by left|done].
  - destruct (Ascii.compare b c); [by right|by left|done].
  - by rewrite Hlt.
  - rewrite Hab in H12. rewrite Hbc in H23.
    apply Ascii.compare_eq_iff in Hab, Hbc. subst.
    rewrite ascii_compare_refl. by apply (IH s2).
Qed.

#[local] Instance pystr_le_trans : Transitive pystr.le.
Proof.
  intros s1 s2 s3. unfold pystr.le, String.leb. intros H12 H23.
  pose proof (string_compare_le_trans s1 s2 s3) as Ht.
  destruct (String.compare s1 s2); try done;
    destruct (String.compare s2 s3); try done;
    destruct (String.compare s1 s3); try done;
    exfalso; by apply Ht.
Qed.

#[local] Instance pystr_le_total : Total pystr.le.
Proof. intros s1 s2. apply String.leb_total. Qed.

Lemma sorted_spec (l : list string) :
  StronglySorted pystr.le (pystr.sorted l) ∧ pystr.sorted l ≡ₚ l.
Proof.
  split.
  - apply StronglySorted_merge_sort; apply _.
  - apply merge_sort_Permutation.
Qed.

End StringOrder.

(** ** The catalogue endpoints *)

Section Catalogue.
Import Describe.

Lemma register_index t resourceName r t' :
  register t resourceName r = inr t' →
  table t' = <[resourceName :=
                 default [] (table t !! resourceName) ++ [r]]> (table t) ∧
  index t' = (if visibleInDiscovery r
              then {[resourceName]} ∪ index t else index t).
Proof.
  unfold register.
  destruct (existsb _ _); [done|]. intros [= <-]. done.
Qed.

(** The discovery index of a table built by registrations holds exactly
    the resources with a doc-visible route. *)
Lemma reachable_index t :
  reachable t → ∀ resource, resource ∈ index t ↔ has_visible_route t resource.
Proof.
  induction 1 as [|t name r t' Hr IH Hreg]; intros resource.
  - unfold has_visible_route; simpl. split; [set_solver|].
    intros (rs & r & Hl & _). by rewrite lookup_empty in Hl.
  - apply register_index in Hreg as [Ht Hi].
    unfold has_visible_route. rewrite Ht, Hi.
    destruct (decide (resource = name)) as [->|Hne].
    + rewrite lookup_insert_eq. split.
      * intros Hin. destruct (visibleInDiscovery r) eqn:Hv.
        -- exists (default [] (table t !! name) ++ [r]), r.
           split_and!; [done|set_solver|done].
        -- apply IH in Hin as (rs & r0 & Hl & Hin & Hv0).
           exists (default [] (table t !! name) ++ [r]), r0.
           rewrite Hl; simpl. split_and!; [done|set_solver|done].
      * intros (rs & r0 & [= <-] & Hin & Hv0).
        apply elem_of_app in Hin as [Hin|Hin].
        -- assert (name ∈ index t) as Hix.
           { apply IH. destruct (table t !! name) as [rs|] eqn:Hl;
               simpl in Hin; [|by apply not_elem_of_nil in Hin].
             by exists rs, r0. }
           destruct (visibleInDiscovery r); set_solver.
        -- apply list_elem_of_singleton in Hin as ->. rewrite Hv0. set_solver.
    + rewrite lookup_insert_ne by done.
      rewrite <- (IH resource).
      destruct (visibleInDiscovery r); set_solver.
Qed.

(** C7: whatever routes have been registered, [listResources] lists one
    entry ['/' + name] per resource name of the discovery index, that is
    exactly for the resources having at least one doc-visible route, and
    the entries come in lexicographic order of the names, each once. *)
Theorem listResources_visible_and_sorted
    (cp : CherryPy) (docs : Docs) (t : RouteTable) :
  reachable t →
  discovery docs = index t →
  ∃ names,
    rl_apis (listResources cp docs)
      = (λ resource, {| ref_path := "/" +:+ resource |}) <$> names ∧
    StronglySorted pystr.le names ∧
    NoDup names ∧
    ∀ resource,
      {| ref_path := "/" +:+ resource |} ∈ rl_apis (listResources cp docs)
      ↔ has_visible_route t resource.
Proof.
  intros Hreach Hdisc.
  destruct (sorted_spec (elements (discovery docs))) as [Hs Hp].
  exists (pystr.sorted (elements (discovery docs))).
  split_and!; [done|done| |].
  - rewrite Hp. apply NoDup_elements.
  - intros resource. rewrite <- (reachable_index t Hreach), <- Hdisc.
    unfold listResources; simpl. rewrite list_elem_of_fmap. split.
    + intros (x & Hx & Hin). injection Hx as Hx.
      change (resource = x) in Hx. subst x.
      rewrite Hp in Hin. by apply elem_of_elements in Hin.
    + intros Hin. exists resource. split; [done|].
      rewrite Hp. by apply elem_of_elements.
Qed.

(** C6: for a name that is not a key of [docs.routes], [describeResource]
    raises the [RestException] with message ['Invalid resource: ' + name]
    and the default (400) status; for a name that is a key it returns
    normally, with exactly one entry per route path of that resource,
    carrying the operations grouped under that path. *)
Theorem describeResource_unknown_or_grouped
    (cp : CherryPy) (docs : Docs) (resource : string) :
  (routes docs !! resource = None →
   describeResource cp docs resource
     = Raise (RestException ("Invalid resource: " +:+ resource) 400)) ∧
  (∀ paths, routes docs !! resource = Some paths →
   ∃ r, describeResource cp docs resource = Ok r ∧
        NoDup (path <$> ad_apis r) ∧
        ∀ p ops, {| path := p; operations := ops |} ∈ ad_apis r
                 ↔ paths !! p = Some ops).
Proof.
  unfold describeResource. split.
  - by intros ->.
  - intros paths ->. eexists. split; [done|]. simpl. split.
    + rewrite <- list_fmap_compose.
      rewrite (list_fmap_ext _ fst) by (by intros ? []).
      apply NoDup_fst_map_to_list.
    + intros p ops. rewrite list_elem_of_fmap. split.
      * intros ([p' ops'] & [= -> ->] & Hin).
        by apply elem_of_map_to_list in Hin.
      * intros Hl. exists (p, ops). split; [done|].
        by apply elem_of_map_to_list.
Qed.

End Catalogue.

(** ** Python string methods *)

Section StringMethods.
Import pystr.

Lemma append_cons a (s t : string) : String a s +:+ t = String a (s +:+ t).
Proof. reflexivity. Qed.

Lemma append_nil (t : string) : EmptyString +:+ t = t.
Proof. reflexivity. Qed.

Lemma cut_first c l p :
  contains c l = false → cut c (l +:+ String c p) = (l, Some p).
Proof.
  induction l as [|a l IH]; rewrite ?append_nil, ?append_cons; simpl.
  - intros _. by rewrite decide_True.
  - destruct (decide (a = c)); [done|]. intros H. by rewrite (IH H).
Qed.

Lemma split1_first c l p :
  contains c l = false → split1 c (l +:+ String c p) = [l; p].
Proof. intros H. unfold split1. by rewrite cut_first. Qed.

Lemma cut_absent c s : contains c s = false → cut c s = (s, None).
Proof.
  induction s as [|a s IH]; simpl; [done|].
  destruct (decide (a = c)); [done|]. intros H. by rewrite (IH H).
Qed.

Lemma lower_ascii_not_upper a : is_upper (lower_ascii a) = false.
Proof.
  unfold lower_ascii. destruct (is_upper a) eqn:Hu; [|done].
  unfold is_upper in *. apply andb_true_iff in Hu as [H1 H2].
  apply N.leb_le in H1, H2.
  rewrite N_ascii_embedding by lia.
  apply andb_false_iff. right. apply N.leb_gt. lia.
Qed.

Lemma lower_lowercased s : lowercased_of s (lower s).
Proof.
  induction s as [|a s IH]; simpl; [constructor|].
  unfold lower_ascii. destruct (is_upper a) eqn:Hu.
  - apply lowercased_capital; [done| |done].
    unfold is_upper in Hu. apply andb_true_iff in Hu as [H1 H2].
    apply N.leb_le in H1, H2. apply N_ascii_embedding. lia.
  - by apply lowercased_small.
Qed.

Lemma lower_no_upper s : all_chars (λ a, negb (is_upper a)) (lower s) = true.
Proof.
  induction s as [|a s IH]; simpl; [done|].
  by rewrite lower_ascii_not_upper, IH.
Qed.

Lemma lstrip_spec s :
  ∃ pre, s = pre +:+ lstrip s ∧ all_chars isspace pre = true ∧
         starts_with_space (lstrip s) = false.
Proof.
  induction s as [|a s (pre & Hs & Hpre & Hst)]; simpl.
  - by exists EmptyString.
  - destruct (isspace a) eqn:Ha.
    + exists (String a pre). rewrite append_cons, <- Hs. simpl.
      by rewrite Ha, Hpre.
    + exists EmptyString. rewrite append_nil. simpl. by rewrite Ha.
Qed.

Lemma rstrip_spec s :
  ∃ post, s = rstrip s +:+ post ∧ all_chars isspace post = true ∧
          ends_with_space (rstrip s) = false ∧
          (starts_with_space s = false →
           starts_with_space (rstrip s) = false).
Proof.
  induction s as [|a s (post & Hs & Hpost & Hend & _)]; simpl.
  - by exists EmptyString.
  - destruct (rstrip s) as [|b r] eqn:Hr.
    + rewrite append_nil in Hs. subst s. destruct (isspace a) eqn:Ha.
      * exists (String a post). rewrite append_nil. simpl.
        by rewrite Ha, Hpost.
      * exists post. rewrite append_cons, append_nil. simpl.
        by rewrite Ha.
    + exists post. rewrite append_cons, <- Hs. done.
Qed.

Lemma strip_trimmed s : trimmed_of s (strip s).
Proof.
  destruct (lstrip_spec s) as (pre & Hs & Hpre & Hst).
  destruct (rstrip_spec (lstrip s)) as (post & Hl & Hpost & Hend & Hkeep).
  exists pre, post. unfold strip. split_and!; auto.
  by rewrite <- Hl.
Qed.

Lemma strip_keeps_all_chars P s :
  all_chars P s = true → all_chars P (strip s) = true.
Proof.
  intros Hs. unfold strip.
  assert (Hl : all_chars P (lstrip s) = true).
  { induction s as [|a s IH]; simpl in *; [done|].
    apply andb_true_iff in Hs as [Ha Hs].
    destruct (isspace a); [auto|]. simpl. by rewrite Ha, Hs. }
  clear Hs. induction (lstrip s) as [|a t IH]; simpl in *; [done|].
  apply andb_true_iff in Hl as [Ha Ht]. specialize (IH Ht).
  destruct (rstrip t) as [|b r].
  - destruct (isspace a); simpl; [done|]. by rewrite Ha.
  - simpl in *. by rewrite Ha, IH.
Qed.

Lemma slice_to_Basic h :
  slice_to 6 h = "Basic " → h = "Basic " +:+ slice_from 6 h.
Proof.
  unfold slice_to.
  destruct h as [|a1 [|a2 [|a3 [|a4 [|a5 [|a6 h]]]]]]; simpl; try done.
  intros [= -> -> -> -> -> ->]. done.
Qed.

Lemma slice_to_prefix rest : slice_to 6 ("Basic " +:+ rest) = "Basic ".
Proof. unfold slice_to. simpl. by destruct rest. Qed.

Lemma slice_from_prefix rest : slice_from 6 ("Basic " +:+ rest) = rest.
Proof. done. Qed.

End StringMethods.

(** ** The User resource *)

Section UserResource.
Import v1_user pystr.
Context {Store : Type} `{!Collaborators Store}.

Lemma logged_logged (w : World Store) evs evs' :
  logged (logged w evs) evs' = logged w (evs ++ evs').
Proof. unfold logged; simpl. by rewrite app_assoc. Qed.

Lemma record_run ev (w : World Store) : record ev w = (Ok (), logged w [ev]).
Proof. done. Qed.

Lemma headers_get_run name (w : World Store) :
  headers_get name w = (Ok (headers (request w) !! name), logged w [HeadersGet name]).
Proof. done. Qed.

Lemma model_user_find_run field key (w : World Store) :
  model_user_find field key w
  = (Ok (user_find (store w) field key), logged w [UserFind field key]).
Proof. done. Qed.

Lemma model_password_authenticate_run u p (w : World Store) :
  model_password_authenticate u p w
  = (Ok (password_authenticate u p), logged w [PasswordAuthenticate u p]).
Proof. done. Qed.

Lemma bind_run {A B} (m : M Store A) (f : A → M Store B) w :
  (m ≫= f) w = match m w with
               | (Ok a, w') => f a w'
               | (Raise e, w') => (Raise e, w')
               end.
Proof. done. Qed.

Lemma login_basic_credentials self (w : World Store) enc l p :
  headers (request w) !! "Authorization" = Some ("Basic " +:+ enc) →
  b64decode enc = Some (l +:+ String ":" p) →
  contains ":" l = false →
  let key := strip (lower l) in
  let field := if contains "@" key then "email" else "login" in
  login_basic self w =
    match user_find (store w) field key with
    | [] => (Raise (RestException "Login failed." 403),
             logged w [HeadersGet "Authorization"; UserFind field key])
    | u :: _ =>
        let w2 := logged w [HeadersGet "Authorization"; UserFind field key;
                            PasswordAuthenticate u p] in
        if password_authenticate u p then
          (_ ← set_girderUser u;
           token ← _sendAuthTokenCookie self u;
           mret (Some u, Some token)) w2
        else (Raise (RestException "Login failed." 403), w2)
    end.
Proof.
  intros Hh Hd Hc key field.
  unfold login_basic. rewrite bind_run, headers_get_run.
  change (headers (request (logged w [HeadersGet "Authorization"])))
    with (headers (request w)) in *.
  rewrite Hh. cbn [default from_option id truthy_str]. cbv zeta.
  rewrite slice_to_prefix, slice_from_prefix, Hd, split1_first by done.
  rewrite bool_decide_true by done. rewrite bool_decide_true by done.
  cbn [negb orb]. fold key. fold field.
  rewrite bind_run, model_user_find_run, logged_logged.
  cbn [store logged app].
  destruct (user_find (store w) field key) as [|u us]; [done|].
  rewrite bind_run, model_password_authenticate_run, logged_logged.
  cbn [app]. by destruct (password_authenticate u p).
Qed.

Lemma filter_run (u : document) (w : World Store) :
  _filter (Some u) w =
    (Ok (Some (<["_accessLevel" :=
                   user_getAccessLevel u (getCurrentUser (request w) (store w)).1]>
                 (filterDocument u
                    (if user_hasAccess u (getCurrentUser (request w) (store w)).1 ADMIN
                     then base_keys ++ admin_keys else base_keys)))), w).
Proof. done. Qed.

Lemma filter_world x (w : World Store) : ∃ y, _filter x w = (Ok y, w).
Proof. destruct x; eexists; reflexivity. Qed.

Lemma sendAuthTokenCookie_ok self u (w : World Store) token w' :
  _sendAuthTokenCookie self u w = (Ok token, w') →
  ∃ uid tid,
    u !! "_id" = Some uid ∧ token !! "_id" = Some tid ∧
    token_createToken (store w) u (COOKIE_LIFETIME self) = (token, store w') ∧
    request w' = request w ∧
    calls w' = calls w ++ [CreateToken u (COOKIE_LIFETIME self)] ∧
    response_cookie w' !! "authToken" =
      Some {| morsel_value :=
                json_dumps {[ "userId" := VStr (py_str uid);
                              "token" := VStr (py_str tid) ]};
              morsel_path := Some "/";
              morsel_expires := Some (COOKIE_LIFETIME self * 3600 * 24) |}.
Proof.
  unfold _sendAuthTokenCookie, model_token_createToken, getitem,
    cookie_set, cookie_set_path, cookie_set_expires, update_cookie.
  cbv [mbind M_bind mret M_ret gets modify record raise]. cbn.
  destruct (token_createToken (store w) u (COOKIE_LIFETIME self))
    as [tk st] eqn:Hct. cbn.
  destruct (u !! "_id") as [uid|] eqn:Hu; [|done].
  destruct (tk !! "_id") as [tid|] eqn:Ht; [|done].
  intros [= <- <-]. exists uid, tid. cbn.
  split_and!; try done.
  rewrite !lookup_alter_eq, lookup_insert_eq. done.
Qed.

Lemma login_basic_ok self (w : World Store) u t w' :
  login_basic self w = (Ok (u, t), w') →
  ∃ user token wm,
    u = Some user ∧ t = Some token ∧
    _sendAuthTokenCookie self user wm = (Ok token, w') ∧
    response_cookie wm = response_cookie w ∧ store wm = store w.
Proof.
  unfold login_basic. rewrite bind_run, headers_get_run. cbv zeta.
  destruct (_ || _); [done|].
  destruct (b64decode _) as [creds|]; [|done].
  destruct (split1 ":" creds) as [|l [|p [|]]]; try done.
  rewrite bind_run, model_user_find_run.
  destruct (user_find _ _ _) as [|user us]; [done|].
  rewrite bind_run, model_password_authenticate_run.
  destruct (password_authenticate user p); [|done]. cbn [negb].
  rewrite bind_run. cbn [set_girderUser modify].
  rewrite bind_run.
  destruct (_sendAuthTokenCookie _ _ _) as [[token|e] w1] eqn:Hs; [|done].
  intros [= <- <- <-]. eauto 10.
Qed.

Lemma filterDocument_lookup (d : document) allow k :
  filterDocument d allow !! k = if decide (k ∈ allow) then d !! k else None.
Proof.
  unfold filterDocument. rewrite map_lookup_filter.
  destruct (d !! k) as [v|]; simpl; [|by case_decide].
  case_decide.
  - by rewrite option_guard_True.
  - by rewrite option_guard_False.
Qed.

Lemma login_no_session self (w : World Store) :
  truthy (getCurrentUser (request w) (store w)).1 = false →
  login self w =
    match login_basic self w with
    | (Ok (user, token), w1) =>
        (filtered ← _filter user;
         tid ← getitem_opt token "_id";
         exp ← getitem_opt token "expires";
         uid ← getitem_opt user "_id";
         mret {| user := filtered;
                 authToken := {| token := tid; expires := exp; userId := uid |};
                 message := "Login succeeded." |}) w1
    | (Raise e, w1) => (Raise e, w1)
    end.
Proof.
  intros Hs. unfold login. rewrite bind_run.
  cbn [getCurrentUser_returnToken gets].
  destruct (getCurrentUser (request w) (store w)) as [cu ct].
  simpl in Hs. rewrite Hs. cbn [negb]. rewrite bind_run.
  by destruct (login_basic self w) as [[[u t]|e] w1].
Qed.

(** C5: for a user document and any requester, [_filter] returns a
    document whose [_accessLevel] is the level [getAccessLevel] resolves
    for the requester; each base field is kept as the user has it, each
    extra field is kept exactly when the requester has ADMIN access on the
    user, and no other field of the user is let through.  The handler
    state is left as it was. *)
Theorem filter_fields_by_access (user : document) (w : World Store) :
  let requester := (getCurrentUser (request w) (store w)).1 in
  ∃ filtered,
    _filter (Some user) w = (Ok (Some filtered), w) ∧
    filtered !! "_accessLevel" = Some (user_getAccessLevel user requester) ∧
    (∀ k, k ∈ base_keys → filtered !! k = user !! k) ∧
    (∀ k, k ∈ admin_keys →
          filtered !! k = if user_hasAccess user requester ADMIN
                          then user !! k else None) ∧
    (∀ k, k ∉ base_keys → k ∉ admin_keys → k ≠ "_accessLevel" →
          filtered !! k = None).
Proof.
  intros requester. eexists. split; [apply filter_run|]. fold requester.
  split_and!.
  - by rewrite lookup_insert_eq.
  - intros k Hk. rewrite lookup_insert_ne, filterDocument_lookup.
    + rewrite decide_True; [done|].
      destruct (user_hasAccess _ _ _); set_solver.
    + intros <-. unfold base_keys in Hk. set_solver.
  - intros k Hk. rewrite lookup_insert_ne, filterDocument_lookup.
    + destruct (user_hasAccess _ _ _).
      * rewrite decide_True; [done|set_solver].
      * rewrite decide_False; [done|].
        unfold admin_keys, base_keys in *. set_solver.
    + intros <-. unfold admin_keys in Hk. set_solver.
  - intros k Hb Ha Hk. rewrite lookup_insert_ne by done.
    rewrite filterDocument_lookup, decide_False; [done|].
    destruct (user_hasAccess _ _ _); set_solver.
Qed.

Lemma appends_ret {A} (a : A) : appends (mret a : M Store A).
Proof. intros w. exists []. simpl. by rewrite app_nil_r. Qed.

Lemma appends_raise {A} e : appends (raise e : M Store A).
Proof. intros w. exists []. simpl. by rewrite app_nil_r. Qed.

Lemma appends_gets {A} (f : World Store → A) : appends (gets f).
Proof. intros w. exists []. simpl. by rewrite app_nil_r. Qed.

Lemma appends_modify (f : World Store → World Store) evs :
  (∀ w, calls (f w) = calls w ++ evs) → appends (modify f).
Proof. intros Hf w. exists evs. apply Hf. Qed.

Lemma appends_bind {A B} (m : M Store A) (f : A → M Store B) :
  appends m → (∀ a, appends (f a)) → appends (m ≫= f).
Proof.
  intros Hm Hf w. rewrite bind_run.
  destruct (Hm w) as [evs Hevs].
  destruct (m w) as [[a|e] w1]; simpl in Hevs.
  - destruct (Hf a w1) as [evs' Hevs'].
    exists (evs ++ evs'). by rewrite Hevs', Hevs, app_assoc.
  - by exists evs.
Qed.

Lemma appends_getitem d k : appends (getitem d k : M Store value).
Proof.
  unfold getitem. destruct (d !! k); [apply appends_ret|apply appends_raise].
Qed.

Lemma appends_getitem_opt x k : appends (getitem_opt x k : M Store value).
Proof. destruct x; [apply appends_getitem|apply appends_raise]. Qed.

Lemma appends_update_cookie f : appends (update_cookie f : M Store unit).
Proof.
  apply (appends_modify _ []). intros w. simpl. by rewrite app_nil_r.
Qed.

Lemma appends_sendAuthTokenCookie self u :
  appends (_sendAuthTokenCookie self u).
Proof.
  unfold _sendAuthTokenCookie, model_token_createToken, record,
    cookie_set, cookie_set_path, cookie_set_expires.
  repeat first
    [ apply appends_bind; [|intros ?]
    | apply appends_getitem
    | apply appends_update_cookie
    | apply appends_gets
    | apply appends_ret
    | by apply (appends_modify _ [CreateToken u (COOKIE_LIFETIME self)])
    | apply (appends_modify _ []); intros w; simpl; by rewrite app_nil_r ].
Qed.

Lemma appends_filter x : appends (_filter x).
Proof.
  intros w. destruct (filter_world x w) as [y ->].
  exists []. simpl. by rewrite app_nil_r.
Qed.

(** What [login] does once the password has been verified. *)
Lemma appends_login_tail self u :
  appends (pair ← (_ ← set_girderUser u;
                   token ← _sendAuthTokenCookie self u;
                   mret (Some u, Some token));
           filtered ← _filter pair.1;
           tid ← getitem_opt pair.2 "_id";
           exp ← getitem_opt pair.2 "expires";
           uid ← getitem_opt pair.1 "_id";
           mret {| user := filtered;
                   authToken :=
                     {| token := tid; expires := exp; userId := uid |};
                   message := "Login succeeded." |}).
Proof.
  unfold set_girderUser.
  repeat first
    [ apply appends_getitem_opt
    | apply appends_sendAuthTokenCookie
    | apply appends_filter
    | apply appends_ret
    | apply (appends_modify _ []); intros w; simpl; by rewrite app_nil_r
    | apply appends_bind; [|intros ?] ].
Qed.

(** C1, amended: for a login attempt that does not already carry a valid
    session and whose Basic Authorization header is well formed (it
    decodes to [login:password]), login fails in the same way whether no
    identity matches the normalised login identifier or the matching
    identity's password does not verify: [RestException('Login failed.',
    403)] in both cases. *)
Theorem login_failures_indistinguishable self (w : World Store) enc l p :
  truthy (getCurrentUser (request w) (store w)).1 = false →
  headers (request w) !! "Authorization" = Some ("Basic " +:+ enc) →
  b64decode enc = Some (l +:+ ":" +:+ p) →
  contains ":" l = false →
  let key := strip (lower l) in
  let field := if contains "@" key then "email" else "login" in
  (user_find (store w) field key = [] ∨
   ∃ u us, user_find (store w) field key = u :: us ∧
           password_authenticate u p = false) →
  (login self w).1 = Raise (RestException "Login failed." 403).
Proof.
  intros Hs Hh Hd Hc key field Hfail.
  rewrite (login_no_session self w Hs).
  rewrite (login_basic_credentials self w enc l p Hh Hd Hc).
  fold key. fold field.
  destruct Hfail as [->|(u & us & -> & Hpw)]; [done|].
  by rewrite Hpw.
Qed.

(** C2: when login decodes the credential string [l:p], where [l] has no
    colon, the string is split into [l] and [p] (at the first colon: [p]
    may contain more), the identity is looked up under the key obtained
    from [l] by lower-casing and then trimming surrounding whitespace, in
    the [email] field if that key contains ['@'] and in the [login] field
    otherwise, and the password handed to verification is [p]
    unchanged. *)
Theorem login_splits_normalizes_and_selects_field
    self (w : World Store) enc l p :
  truthy (getCurrentUser (request w) (store w)).1 = false →
  headers (request w) !! "Authorization" = Some ("Basic " +:+ enc) →
  b64decode enc = Some (l +:+ ":" +:+ p) →
  contains ":" l = false →
  let key := strip (lower l) in
  let field := if contains "@" key then "email" else "login" in
  split1 ":" (l +:+ ":" +:+ p) = [l; p] ∧
  lowercased_of l (lower l) ∧
  trimmed_of (lower l) key ∧
  all_chars (λ a, negb (is_upper a)) key = true ∧
  match user_find (store w) field key with
  | [] =>
      calls (login self w).2
      = calls w ++ [HeadersGet "Authorization"; UserFind field key]
  | u :: _ =>
      ∃ rest,
        calls (login self w).2
        = calls w ++ [HeadersGet "Authorization"; UserFind field key;
                      PasswordAuthenticate u p] ++ rest
  end.
Proof.
  intros Hs Hh Hd Hc key field.
  split_and!.
  - by apply split1_first.
  - apply lower_lowercased.
  - apply strip_trimmed.
  - apply strip_keeps_all_chars, lower_no_upper.
  - rewrite (login_no_session self w Hs).
    rewrite (login_basic_credentials self w enc l p Hh Hd Hc).
    fold key. fold field.
    destruct (user_find _ _ _) as [|u us]; [done|].
    destruct (password_authenticate u p); [|by exists []].
    destruct (appends_login_tail self u
                (logged w [HeadersGet "Authorization"; UserFind field key;
                           PasswordAuthenticate u p])) as [evs Hevs].
    exists evs. rewrite bind_run in Hevs.
    cbn zeta.
    destruct ((_ ← set_girderUser u; _) _) as [[[u' t']|e] w1];
      cbn [fst snd] in Hevs |- *;
      rewrite Hevs; cbn [logged calls]; by rewrite <- !app_assoc.
Qed.

(** C3, amended: for a login request that does not already carry a valid
    session, an Authorization header that is absent or does not start
    with ['Basic '] makes login fail with [RestException('Use HTTP Basic
    Authentication', 401)], and a remainder that fails base64 decoding
    makes it fail with [RestException('Invalid HTTP Authorization
    header')], which carries the default status 400; in all these cases
    the only call made is the header read: no identity lookup, no
    password verification. *)
Theorem login_rejects_missing_or_malformed_header self (w : World Store) :
  truthy (getCurrentUser (request w) (store w)).1 = false →
  ((headers (request w) !! "Authorization" = None ∨
    ∃ h, headers (request w) !! "Authorization" = Some h ∧
         ∀ rest, h ≠ "Basic " +:+ rest) →
   login self w = (Raise (RestException "Use HTTP Basic Authentication" 401),
                   logged w [HeadersGet "Authorization"])) ∧
  (∀ enc,
     headers (request w) !! "Authorization" = Some ("Basic " +:+ enc) →
     b64decode enc = None →
     login self w
     = (Raise (RestException "Invalid HTTP Authorization header" 400),
        logged w [HeadersGet "Authorization"])).
Proof.
  intros Hs. rewrite (login_no_session self w Hs).
  unfold login_basic. rewrite bind_run, headers_get_run. cbv zeta.
  change (headers (request (logged w [HeadersGet "Authorization"])))
    with (headers (request w)).
  split.
  - intros [->|(h & -> & Hh)]; [done|].
    cbn [default from_option id].
    rewrite (bool_decide_false (slice_to 6 h = "Basic ")).
    + by rewrite orb_true_r.
    + intros Hp. apply slice_to_Basic in Hp. by apply Hh in Hp.
  - intros enc -> Hd. cbn [default from_option id truthy_str].
    rewrite slice_to_prefix, slice_from_prefix, Hd.
    by rewrite !bool_decide_true.
Qed.

(** C4, amended: on every successful login that does not resume an
    already valid session, the response carries a cookie [authToken]
    whose value is [json.dumps] of the dict with [userId], the string of
    the identity's id, and [token], the string of the token's id - the
    ids the response itself reports - whose path is ['/'] and whose
    [expires] attribute is the configured number of days times 86400,
    that number being 180 when no lifetime setting is configured. *)
Theorem login_sets_authToken_cookie
    (st : Store) (w : World Store) (r : LoginResponse) (w' : World Store) :
  truthy (getCurrentUser (request w) (store w)).1 = false →
  login (User_init st) w = (Ok r, w') →
  ∃ configuredDays,
    configuredDays = match setting_lookup st SettingKey_COOKIE_LIFETIME with
                     | Some days => days
                     | None => 180
                     end ∧
    response_cookie w' !! "authToken" =
      Some {| morsel_value :=
                json_dumps
                  {[ "userId" := VStr (py_str (userId (authToken r)));
                     "token" := VStr (py_str (token (authToken r))) ]};
              morsel_path := Some "/";
              morsel_expires := Some (configuredDays * 86400) |}.
Proof.
  intros Hs Hlogin. rewrite (login_no_session _ w Hs) in Hlogin.
  destruct (login_basic _ w) as [[[u t]|e] w1] eqn:Hb; [|done].
  apply login_basic_ok in Hb as (user & tk & wm & -> & -> & Hsend & _).
  apply sendAuthTokenCookie_ok in Hsend
    as (uid & tid & Hu & Ht & _ & _ & _ & Hcookie).
  rewrite bind_run, filter_run in Hlogin.
  unfold getitem_opt, getitem in Hlogin.
  rewrite !bind_run, Ht in Hlogin. cbn in Hlogin.
  destruct (tk !! "expires") as [exp|]; [|done]. cbn in Hlogin.
  rewrite Hu in Hlogin. cbn in Hlogin.
  injection Hlogin as <- <-. cbn [authToken userId token].
  eexists. split; [reflexivity|]. rewrite Hcookie.
  unfold User_init, setting_get. cbn [COOKIE_LIFETIME].
  rewrite <- Z.mul_assoc. change (3600 * 24) with 86400.
  by destruct (setting_lookup st SettingKey_COOKIE_LIFETIME).
Qed.

(** C10: when the request's cookie already resolves to an identity and a
    valid token, login answers with that identity (filtered) and that
    token's id and expiry, and leaves the whole handler state as it
    found it: the Authorization header is not read, no token is created,
    the token store and the response cookies are unchanged. *)
Theorem login_resumes_valid_session
    self (w : World Store) (u t : document) (uid tid exp : value) :
  getCurrentUser (request w) (store w) = (Some u, Some t) →
  u !! "_id" = Some uid →
  t !! "_id" = Some tid →
  t !! "expires" = Some exp →
  ∃ filtered,
    _filter (Some u) w = (Ok (Some filtered), w) ∧
    login self w
    = (Ok {| user := Some filtered;
             authToken := {| token := tid; expires := exp; userId := uid |};
             message := "Login succeeded." |}, w).
Proof.
  intros Hcur Hu Ht He. eexists. split; [apply filter_run|].
  unfold login. rewrite bind_run.
  cbn [getCurrentUser_returnToken gets]. rewrite Hcur.
  assert (truthy (Some u) = true) as ->.
  { simpl. apply bool_decide_true. intros ->. by rewrite lookup_empty in Hu. }
  cbn [negb]. rewrite bind_run. cbn [mret M_ret].
  rewrite bind_run, filter_run. unfold getitem_opt, getitem.
  rewrite !bind_run, Ht. cbn. rewrite He. cbn. rewrite Hu. cbn.
  by rewrite Hcur.
Qed.

End UserResource.

(** ** The handlers on concrete requests *)

Section Deployment.
Import v1_user pystr deployment.

(** C1, as stated, fails: a request that resumes a valid session and also
    carries a well-formed Basic header naming a login nobody has is
    answered with a successful login, not with [Login failed.]. *)
Lemma login_failure_counterexample :
  truthy (getCurrentUser (request resuming_as_bob)
                         (store resuming_as_bob)).1 = true ∧
  headers (request resuming_as_bob) !! "Authorization"
    = Some "Basic Ym9iOng=" ∧
  b64decode "Ym9iOng=" = Some "bob:x" ∧
  user_find (store resuming_as_bob) "login" "bob" = [] ∧
  match (login (User_init store1) resuming_as_bob).1 with
  | Ok r => message r = "Login succeeded."
  | Raise _ => False
  end.
Proof. vm_compute. done. Qed.

Lemma login_failures_indistinguishable_witness :
  (login (User_init store0) as_bob).1
    = Raise (RestException "Login failed." 403) ∧
  (login (User_init store0) as_alice_wrong).1
    = Raise (RestException "Login failed." 403).
Proof.
  split.
  - apply (login_failures_indistinguishable
             (User_init store0) as_bob "Ym9iOng=" "bob" "x");
      [vm_compute; reflexivity..|].
    left. vm_compute. reflexivity.
  - apply (login_failures_indistinguishable
             (User_init store0) as_alice_wrong "YWxpY2U6eA==" "alice" "x");
      [vm_compute; reflexivity..|].
    right. exists alice, []. split; vm_compute; reflexivity.
Defined.

Lemma login_splits_normalizes_and_selects_field_witness :
  split1 ":" "ALICE :p:q" = ["ALICE "; "p:q"] ∧
  ∃ rest,
    calls (login (User_init store0) as_alice_spaced).2
    = [HeadersGet "Authorization"; UserFind "login" "alice";
       PasswordAuthenticate alice "p:q"] ++ rest.
Proof.
  destruct (login_splits_normalizes_and_selects_field
              (User_init store0) as_alice_spaced
              "QUxJQ0UgOnA6cQ==" "ALICE " "p:q")
    as (Hsplit & _ & _ & _ & Hcalls); [vm_compute; reflexivity..|].
  split; [exact Hsplit|].
  change (user_find (store as_alice_spaced)
            (if contains "@" (strip (lower "ALICE ")) then "email"
             else "login") (strip (lower "ALICE ")))
    with [alice] in Hcalls.
  exact Hcalls.
Defined.

(** C3, as stated, fails: with the header [Basic a], whose remainder is
    not decodable base64, login fails with the message [Invalid HTTP
    Authorization header] and status 400, not with the 401
    missing-credentials error. *)
Lemma login_undecodable_header_counterexample :
  truthy (getCurrentUser (request undecodable) (store undecodable)).1 = false ∧
  headers (request undecodable) !! "Authorization" = Some "Basic a" ∧
  b64decode "a" = None ∧
  (login (User_init store0) undecodable).1
    = Raise (RestException "Invalid HTTP Authorization header" 400) ∧
  (∀ msg, (login (User_init store0) undecodable).1
          ≠ Raise (RestException msg 401)).
Proof.
  split_and!; try (vm_compute; reflexivity).
  intros msg. vm_compute. discriminate.
Qed.

Lemma login_rejects_missing_or_malformed_header_witness :
  login (User_init store0) anonymous
    = (Raise (RestException "Use HTTP Basic Authentication" 401),
       logged anonymous [HeadersGet "Authorization"]) ∧
  login (User_init store0) undecodable
    = (Raise (RestException "Invalid HTTP Authorization header" 400),
       logged undecodable [HeadersGet "Authorization"]).
Proof.
  split.
  - apply (login_rejects_missing_or_malformed_header
             (User_init store0) anonymous); [vm_compute; reflexivity|].
    left. vm_compute. reflexivity.
  - apply (login_rejects_missing_or_malformed_header
             (User_init store0) undecodable) with (enc := "a");
      vm_compute; reflexivity.
Defined.

(** C4, as stated, fails: a login that resumes a valid session succeeds
    and sets no [authToken] cookie in the response. *)
Lemma login_cookie_counterexample :
  match login (User_init store1) resuming with
  | (Ok r, w') =>
      message r = "Login succeeded." ∧
      response_cookie w' !! "authToken" = None
  | (Raise _, _) => False
  end.
Proof. vm_compute. done. Qed.

Lemma login_sets_authToken_cookie_witness :
  ∃ r w',
    login (User_init store0) as_alice = (Ok r, w') ∧
    response_cookie w' !! "authToken" =
      Some {| morsel_value :=
                json_dumps
                  {[ "userId" := VStr (py_str (userId (authToken r)));
                     "token" := VStr (py_str (token (authToken r))) ]};
              morsel_path := Some "/";
              morsel_expires := Some (180 * 86400) |}.
Proof.
  assert (∃ r w', login (User_init store0) as_alice = (Ok r, w'))
    as (r & w' & Hlogin) by (vm_compute; eauto).
  exists r, w'. split; [exact Hlogin|].
  destruct (login_sets_authToken_cookie store0 as_alice r w')
    as (days & -> & Hcookie);
    [vm_compute; reflexivity|exact Hlogin|].
  exact Hcookie.
Defined.

Lemma login_resumes_valid_session_witness :
  ∃ filtered,
    login (User_init store1) resuming
    = (Ok {| user := Some filtered;
             authToken := {| token := VStr "token0";
                             expires := VInt 90000;
                             userId := VStr "5a1" |};
             message := "Login succeeded." |}, resuming).
Proof.
  destruct (login_resumes_valid_session
              (User_init store1) resuming alice alice_token
              (VStr "5a1") (VStr "token0") (VInt 90000))
    as (filtered & _ & Hlogin); [vm_compute; reflexivity..|].
  exists filtered. exact Hlogin.
Defined.

Lemma table3_reachable : Describe.reachable table3.
Proof.
  apply (Describe.reachable_register table2 "folder"
           (route "GET" [":id"] "getFolder" true));
    [|vm_compute; reflexivity].
  apply (Describe.reachable_register table1 "describe"
           (route "GET" [] "listResources" false));
    [|vm_compute; reflexivity].
  apply (Describe.reachable_register Describe.empty_table "user"
           (route "GET" [] "find" true));
    [|vm_compute; reflexivity].
  apply Describe.reachable_empty.
Defined.

Lemma listResources_visible_and_sorted_witness :
  Describe.rl_apis (Describe.listResources site docs3)
    = [ {| Describe.ref_path := "/folder" |};
        {| Describe.ref_path := "/user" |} ] ∧
  ∃ names,
    Describe.rl_apis (Describe.listResources site docs3)
      = (λ resource, {| Describe.ref_path := "/" +:+ resource |}) <$> names ∧
    StronglySorted pystr.le names ∧
    NoDup names ∧
    ∀ resource,
      {| Describe.ref_path := "/" +:+ resource |}
        ∈ Describe.rl_apis (Describe.listResources site docs3)
      ↔ Describe.has_visible_route table3 resource.
Proof.
  split; [vm_compute; reflexivity|].
  apply (listResources_visible_and_sorted site docs3 table3).
  - exact table3_reachable.
  - reflexivity.
Defined.

Lemma describeResource_unknown_or_grouped_witness :
  Describe.describeResource site docs3 "nonexistent"
    = Raise (RestException "Invalid resource: nonexistent" 400) ∧
  ∃ r, Describe.describeResource site docs3 "user" = Ok r ∧
       NoDup (Describe.path <$> Describe.ad_apis r) ∧
       ∀ p ops,
         {| Describe.path := p; Describe.operations := ops |}
           ∈ Describe.ad_apis r
         ↔ ({[ "/user" := [find_operation] ]}
              : gmap string (list Describe.Operation)) !! p = Some ops.
Proof.
  split.
  - apply (describeResource_unknown_or_grouped site docs3 "nonexistent").
    vm_compute. reflexivity.
  - apply (describeResource_unknown_or_grouped site docs3 "user").
    vm_compute. reflexivity.
Defined.

End Deployment.

(** ** More on the Description builder *)

Section DescriptionChains.
Import describe describe_chain.

Lemma call_scalars h b d ps es c h' :
  builder_at h b d ps es →
  call h b c = Some (h', b) →
  ∃ d', objects h' !! b = Some d' ∧
        _notes d' = last_notes (_notes d) [c] ∧
        _responseClass d' = last_responseClass (_responseClass d) [c] ∧
        (∀ b0, b0 ≠ b → objects h' !! b0 = objects h !! b0) ∧
        (∀ l, l ≠ _params d → l ≠ _errorResponses d →
              lists h' !! l = lists h !! l).
Proof.
  intros (Hb & Hne & Hps & Hes).
  destruct c as [n ds pt dt r | n | r cd | o]; simpl;
    unfold param, notes_, errorResponse, responseClass, list_append;
    rewrite Hb; simpl; rewrite ?Hps, ?Hes; simpl; intros [= <-]; simpl.
  - exists d. split_and!; try done. intros l Hl _. by rewrite lookup_insert_ne.
  - eexists. rewrite lookup_insert_eq. split_and!; try done.
    intros b0 Hb0. by rewrite lookup_insert_ne.
  - exists d. split_and!; try done. intros l _ Hl. by rewrite lookup_insert_ne.
  - eexists. rewrite lookup_insert_eq. split_and!; try done.
    intros b0 Hb0. by rewrite lookup_insert_ne.
Qed.

Lemma chain_scalars cs : ∀ h b d ps es h',
  builder_at h b d ps es →
  chain h b cs = Some (h', b) →
  ∃ d', objects h' !! b = Some d' ∧
        _notes d' = last_notes (_notes d) cs ∧
        _responseClass d' = last_responseClass (_responseClass d) cs ∧
        (∀ b0, b0 ≠ b → objects h' !! b0 = objects h !! b0) ∧
        (∀ l, l ≠ _params d → l ≠ _errorResponses d →
              lists h' !! l = lists h !! l).
Proof.
  induction cs as [|c cs IH]; intros h b d ps es h' Hb Hch.
  - injection Hch as <-. exists d. by destruct Hb.
  - destruct (call_builder h b d ps es c Hb)
      as (h1 & d1 & Hc & Hb1 & Hp1 & He1 & _).
    simpl in Hch. rewrite Hc in Hch. simpl in Hch.
    destruct (call_scalars _ _ _ _ _ _ _ Hb Hc)
      as (d1' & Hd1' & Hn1 & Hr1 & Hfo1 & Hfl1).
    assert (d1' = d1) as -> by (destruct Hb1 as [Hb1 _]; congruence).
    destruct (IH _ _ _ _ _ _ Hb1 Hch) as (d2 & Hd2 & Hn2 & Hr2 & Hfo2 & Hfl2).
    exists d2. split_and!; [done| | | |].
    + rewrite Hn2, Hn1. by destruct c.
    + rewrite Hr2, Hr1. by destruct c.
    + intros b0 Hb0. by rewrite Hfo2, Hfo1.
    + intros l Hl1 Hl2. rewrite Hfl2, Hfl1; congruence.
Qed.

Lemma Description_init_fresh h s :
  ∃ d, builder_at (Description_init h s).1 (Description_init h s).2 d [] [] ∧
       objects h !! (Description_init h s).2 = None ∧
       lists h !! _params d = None ∧
       lists h !! _errorResponses d = None ∧
       (∀ b0, b0 ≠ (Description_init h s).2 →
              objects (Description_init h s).1 !! b0 = objects h !! b0) ∧
       (∀ l, l ≠ _params d → l ≠ _errorResponses d →
             lists (Description_init h s).1 !! l = lists h !! l).
Proof.
  unfold Description_init, new_list; simpl.
  set (l1 := fresh (dom (lists h))).
  set (l2 := fresh (dom (<[l1:=[]]> (lists h)))).
  assert (Hf1 : lists h !! l1 = None) by apply not_elem_of_dom, is_fresh.
  assert (Hf2 : l2 ∉ dom (<[l1:=[]]> (lists h))) by apply is_fresh.
  rewrite dom_insert_L in Hf2.
  assert (Hne : l1 ≠ l2) by set_solver.
  exists {| _summary := s; _params := l1; _errorResponses := l2;
            _responseClass := None; _notes := None |}.
  unfold builder_at; simpl. split_and!.
  - by rewrite lookup_insert_eq.
  - done.
  - rewrite lookup_insert_ne by done. by rewrite lookup_insert_eq.
  - by rewrite lookup_insert_eq.
  - apply not_elem_of_dom, is_fresh.
  - done.
  - apply not_elem_of_dom. set_solver.
  - intros b0 Hb0. by rewrite lookup_insert_ne.
  - intros l Hl1 Hl2. by rewrite !lookup_insert_ne.
Qed.

Lemma declared_params_single cs : Forall is_single_param (declared_params cs).
Proof.
  induction cs as [|[] cs IH]; simpl; try done.
  constructor; [|done]. by eexists.
Qed.

Lemma declared_errors_error cs : Forall is_error (declared_errors cs).
Proof.
  induction cs as [|[] cs IH]; simpl; try done.
  constructor; [|done]. by eexists.
Qed.

(** X1: after any chain of calls on a new builder the export still
    carries the summary given to the constructor, and its error responses
    are the ones declared by the [errorResponse] calls, in call order,
    an omitted reason being 'A parameter was invalid.' and an omitted
    code 400. *)
Theorem Description_export_after_chain (h : Heap) (s : string) (cs : list Call) :
  let h0 := (Description_init h s).1 in
  let b := (Description_init h s).2 in
  ∃ h1 e v,
    chain h0 b cs = Some (h1, b) ∧
    asDict h1 b = Some e ∧
    view h1 e = Some v ∧
    v_summary v = s ∧
    v_errorResponses v = declared_errors cs.
Proof.
  intros h0 b.
  destruct (Description_init_builder h s) as (d0 & Hb0 & Hs0 & _).
  destruct (chain_builder cs _ _ _ _ _ Hb0)
    as (h1 & d1 & Hch & Hb1 & _ & _ & Hs1).
  destruct (view_builder _ _ _ _ _ Hb1) as (e & He & _ & _ & Hv).
  exists h1, e. eexists. split_and!; try done. simpl. congruence.
Qed.

(** X2: [notes] and [responseClass] overwrite: after a chain the export
    holds the argument of the last [notes] call and of the last
    [responseClass] call, and [None] for a field never set. *)
Theorem Description_scalars_last_call_wins
    (h : Heap) (s : string) (cs : list Call) :
  let h0 := (Description_init h s).1 in
  let b := (Description_init h s).2 in
  ∃ h1 e,
    chain h0 b cs = Some (h1, b) ∧
    asDict h1 b = Some e ∧
    notes e = last_notes None cs ∧
    responseClass_ e = last_responseClass None cs.
Proof.
  intros h0 b.
  destruct (Description_init_builder h s) as (d0 & Hb0 & _ & Hn0 & Hr0).
  destruct (chain_builder cs _ _ _ _ _ Hb0) as (h1 & d1 & Hch & Hb1 & _).
  destruct (chain_scalars cs _ _ _ _ _ _ Hb0 Hch)
    as (d1' & Hd1 & Hn & Hr & _).
  change (objects h1 !! b = Some d1') in Hd1.
  exists h1. unfold asDict. rewrite Hd1. simpl. eexists.
  split_and!; try done; simpl; congruence.
Qed.

(** X3: whatever the chain, the exported [parameters] list holds only
    parameter dicts, each with [allowMultiple] false, and the exported
    [errorResponses] list holds only error-response dicts: the two lists
    never mix. *)
Theorem Description_lists_keep_their_kind
    (h : Heap) (s : string) (cs : list Call) :
  let h0 := (Description_init h s).1 in
  let b := (Description_init h s).2 in
  ∃ h1 e v,
    chain h0 b cs = Some (h1, b) ∧
    asDict h1 b = Some e ∧
    view h1 e = Some v ∧
    Forall is_single_param (v_parameters v) ∧
    Forall is_error (v_errorResponses v).
Proof.
  intros h0 b.
  destruct (Description_init_builder h s) as (d0 & Hb0 & _).
  destruct (chain_builder cs _ _ _ _ _ Hb0) as (h1 & d1 & Hch & Hb1 & _).
  destruct (view_builder _ _ _ _ _ Hb1) as (e & He & _ & _ & Hv).
  exists h1, e. eexists. split_and!; try done; simpl.
  - apply declared_params_single.
  - apply declared_errors_error.
Qed.

(** X4: two builders share nothing: calls made on a builder constructed
    later leave what an earlier builder exports exactly as it was. *)
Theorem Description_builders_are_independent
    (h : Heap) (s1 s2 : string) (cs1 cs2 : list Call) :
  let h1 := (Description_init h s1).1 in
  let b1 := (Description_init h s1).2 in
  ∃ h2 e1 v1,
    chain h1 b1 cs1 = Some (h2, b1) ∧
    asDict h2 b1 = Some e1 ∧
    view h2 e1 = Some v1 ∧
    let h3 := (Description_init h2 s2).1 in
    let b2 := (Description_init h2 s2).2 in
    b2 ≠ b1 ∧
    ∃ h4,
      chain h3 b2 cs2 = Some (h4, b2) ∧
      asDict h4 b1 = Some e1 ∧
      view h4 e1 = Some v1.
Proof.
  intros h1 b1. subst h1 b1.
  destruct (Description_init_builder h s1) as (d0 & Hb0 & _).
  destruct (chain_builder cs1 _ _ _ _ _ Hb0) as (h2 & d1 & Hch & Hb1 & _).
  destruct (view_builder _ _ _ _ _ Hb1) as (e1 & He1 & Hpe & Hee & Hv1).
  exists h2, e1. eexists. split_and!; try done.
  intros h3 b2. subst h3 b2.
  destruct (Description_init_fresh h2 s2)
    as (d2 & Hb2 & Hfb & Hfp & Hfe & Hfo & Hfl).
  destruct Hb1 as (Hob1 & Hne1 & Hps1 & Hes1).
  assert (Hbb : (Description_init h2 s2).2 ≠ (Description_init h s1).2)
    by (intros Heq; rewrite Heq in Hfb; congruence).
  split; [done|].
  destruct (chain_builder cs2 _ _ _ _ _ Hb2) as (h4 & d4 & Hch2 & _).
  destruct (chain_scalars cs2 _ _ _ _ _ _ Hb2 Hch2)
    as (_ & _ & _ & _ & Hfo4 & Hfl4).
  exists h4. split; [done|].
  assert (Hl : ∀ l, is_Some (lists h2 !! l) → lists h4 !! l = lists h2 !! l).
  { intros l [x Hx]. rewrite Hfl4, Hfl; congruence. }
  split.
  - unfold asDict in *. rewrite Hfo4, Hfo by done. done.
  - unfold view in *. rewrite Hpe, Hee in *.
    rewrite !Hl by (by eexists). done.
Qed.
End DescriptionChains.

(** ** More on login identifiers *)

Section MoreStrings.
Import pystr.

Lemma isspace_lower a : isspace (lower_ascii a) = isspace a.
Proof.
  unfold lower_ascii. destruct (is_upper a) eqn:Hu; [|done].
  unfold is_upper in Hu. apply andb_true_iff in Hu as [H1 H2].
  apply N.leb_le in H1, H2. unfold isspace.
  rewrite N_ascii_embedding by lia.
  repeat match goal with
         | |- context [(?x =? ?y)%N] => destruct (N.eqb_spec x y); try lia
         | |- context [(?x <=? ?y)%N] => destruct (N.leb_spec x y); try lia
         end; done.
Qed.

Lemma lower_ascii_idem a : lower_ascii (lower_ascii a) = lower_ascii a.
Proof.
  unfold lower_ascii at 1. by rewrite lower_ascii_not_upper.
Qed.

Lemma lower_idem s : lower (lower s) = lower s.
Proof. induction s; simpl; [done|]. by rewrite lower_ascii_idem, IHs. Qed.

Lemma lower_lstrip s : lower (lstrip s) = lstrip (lower s).
Proof.
  induction s as [|a s IH]; simpl; [done|].
  rewrite isspace_lower. by destruct (isspace a).
Qed.

Lemma lower_rstrip s : lower (rstrip s) = rstrip (lower s).
Proof.
  induction s as [|a s IH]; simpl; [done|].
  rewrite <- IH, isspace_lower.
  destruct (rstrip s); simpl; [|done]. by destruct (isspace a).
Qed.

Lemma lower_strip s : lower (strip s) = strip (lower s).
Proof. unfold strip. by rewrite lower_rstrip, lower_lstrip. Qed.

Lemma lstrip_id s : starts_with_space s = false → lstrip s = s.
Proof. destruct s; simpl; [done|]. by intros ->. Qed.

Lemma rstrip_id s : ends_with_space s = false → rstrip s = s.
Proof.
  induction s as [|a s IH]; simpl; [done|].
  destruct s as [|b s]; [by intros ->|].
  intros H. by rewrite (IH H).
Qed.

Lemma strip_idem s : strip (strip s) = strip s.
Proof.
  destruct (strip_trimmed s) as (_ & _ & _ & _ & _ & Hst & Hend).
  unfold strip at 1. by rewrite (lstrip_id _ Hst), (rstrip_id _ Hend).
Qed.

Lemma contains_at_lower s : contains "@" (lower s) = contains "@" s.
Proof.
  induction s as [|a s IH]; simpl; [done|]. rewrite IH.
  unfold lower_ascii. destruct (is_upper a) eqn:Hu; [|done].
  unfold is_upper in Hu. apply andb_true_iff in Hu as [H1 H2].
  apply N.leb_le in H1, H2.
  rewrite decide_False, decide_False; [done| |].
  - intros ->. vm_compute in H1. done.
  - intros Heq. apply (f_equal N_of_ascii) in Heq.
    rewrite N_ascii_embedding in Heq by lia.
    change (N_of_ascii "@") with 64%N in Heq. lia.
Qed.

Lemma contains_at_lstrip s : contains "@" (lstrip s) = contains "@" s.
Proof.
  induction s as [|a s IH]; simpl; [done|].
  destruct (isspace a) eqn:Ha; [|done].
  rewrite decide_False; [done|]. intros ->. by vm_compute in Ha.
Qed.

Lemma contains_at_rstrip s : contains "@" (rstrip s) = contains "@" s.
Proof.
  induction s as [|a s IH]; simpl; [done|]. rewrite <- IH.
  destruct (rstrip s) as [|b r]; [|done].
  destruct (isspace a) eqn:Ha; [|done]. simpl.
  rewrite decide_False; [done|]. intros ->. by vm_compute in Ha.
Qed.

Lemma login_key_is_canonical (l : string) :
  let key := strip (lower l) in
  strip (lower key) = key ∧
  contains "@" key = contains "@" l.
Proof.
  intros key. unfold key. split.
  - by rewrite <- lower_strip, strip_idem, lower_strip, lower_idem.
  - unfold strip. by rewrite contains_at_rstrip, contains_at_lstrip,
      contains_at_lower.
Qed.
End MoreStrings.

(** ** More on the User resource *)

Section MoreUser.
Import v1_user v1_user_endpoints pystr.
Context {Store : Type} `{!Collaborators Store} `{!EndpointCollaborators Store}.

Lemma login_tail_run (u tk : document) (w : World Store) r w' :
  (filtered ← _filter (Some u);
   tid ← getitem_opt (Some tk) "_id";
   exp ← getitem_opt (Some tk) "expires";
   uid ← getitem_opt (Some u) "_id";
   mret {| user := filtered;
           authToken := {| token := tid; expires := exp; userId := uid |};
           message := "Login succeeded." |}) w = (r, w') →
  w' = w ∧ ∀ msg c, r ≠ Raise (RestException msg c).
Proof.
  rewrite bind_run, filter_run. unfold getitem_opt, getitem.
  rewrite !bind_run.
  destruct (tk !! "_id"); cbn; [|by intros [= <- <-]].
  destruct (tk !! "expires"); cbn; [|by intros [= <- <-]].
  destruct (u !! "_id"); cbn; by intros [= <- <-].
Qed.

Lemma login_basic_inv self (w : World Store) res w' :
  login_basic self w = (res, w') →
  (∃ msg c, res = Raise (RestException msg c) ∧
            ∃ evs, w' = logged w evs) ∨
  (res = Raise ValueError ∧ w' = logged w [HeadersGet "Authorization"]) ∨
  (∃ h creds l p u us,
     headers (request w) !! "Authorization" = Some h ∧
     slice_to 6 h = "Basic " ∧
     b64decode (slice_from 6 h) = Some creds ∧
     split1 ":" creds = [l; p] ∧
     let key := strip (lower l) in
     let field := if contains "@" key then "email" else "login" in
     user_find (store w) field key = u :: us ∧
     password_authenticate u p = true ∧
     (_ ← set_girderUser u;
      token ← _sendAuthTokenCookie self u;
      mret (Some u, Some token))
       (logged w [HeadersGet "Authorization"; UserFind field key;
                  PasswordAuthenticate u p]) = (res, w')).
Proof.
  unfold login_basic. rewrite bind_run, headers_get_run. cbv zeta.
  change (headers (request (logged w [HeadersGet "Authorization"])))
    with (headers (request w)).
  destruct (headers (request w) !! "Authorization") as [h|] eqn:Hh;
    cbn [default from_option id truthy_str negb orb];
    [|intros [= <- <-]; left; eauto 10].
  destruct (bool_decide (h ≠ EmptyString)); cbn [negb orb];
    [|intros [= <- <-]; left; eauto 10].
  destruct (bool_decide (slice_to 6 h = "Basic ")) eqn:Hp; cbn [negb];
    [|intros [= <- <-]; left; eauto 10].
  apply bool_decide_eq_true in Hp.
  destruct (b64decode (slice_from 6 h)) as [creds|] eqn:Hd;
    [|intros [= <- <-]; left; eauto 10].
  destruct (split1 ":" creds) as [|l [|p [|]]] eqn:Hsp;
    try (intros [= <- <-]; right; left; by eauto).
  rewrite bind_run, model_user_find_run, logged_logged. cbn [app store logged].
  destruct (user_find _ _ _) as [|u us] eqn:Hf;
    [intros [= <- <-]; left; eauto 10|].
  rewrite bind_run, model_password_authenticate_run, logged_logged.
  cbn [app].
  destruct (password_authenticate u p) eqn:Hpw; cbn [negb];
    [|intros [= <- <-]; left; eauto 10].
  intros Hrun. right. right. exists h, creds, l, p, u, us. by split_and!.
Qed.

(** The world after the session cookie for ids [uid], [tid] was sent. *)
Lemma sendAuthTokenCookie_run self (u : document) (w : World Store) :
  let created := token_createToken (store w) u (COOKIE_LIFETIME self) in
  _sendAuthTokenCookie self u w =
    match u !! "_id", created.1 !! "_id" with
    | Some uid, Some tid =>
        (Ok created.1,
         {| request := request w;
            response_cookie :=
              <["authToken" :=
                  {| morsel_value :=
                       json_dumps {[ "userId" := VStr (py_str uid);
                                     "token" := VStr (py_str tid) ]};
                     morsel_path := Some "/";
                     morsel_expires :=
                       Some (COOKIE_LIFETIME self * 3600 * 24) |}]>
                (response_cookie w);
            store := created.2;
            calls := calls w ++ [CreateToken u (COOKIE_LIFETIME self)] |})
    | _, _ =>
        (Raise (KeyError "_id"),
         {| request := request w;
            response_cookie := response_cookie w;
            store := created.2;
            calls := calls w ++ [CreateToken u (COOKIE_LIFETIME self)] |})
    end.
Proof.
  intros created. subst created.
  unfold _sendAuthTokenCookie, model_token_createToken, getitem,
    cookie_set, cookie_set_path, cookie_set_expires, update_cookie.
  cbv [mbind M_bind mret M_ret gets modify record raise]. cbn.
  destruct (u !! "_id") as [uid|]; [|done].
  destruct (_ !! "_id") as [tid|]; [|done]. cbn.
  by rewrite !alter_insert_eq.
Qed.

(** X7: a login that does not resume a session succeeds only through
    verified credentials: the header is a Basic header that decodes and
    splits into login and password, the lookup found a user, and
    [authenticate] accepted the password for that very user; the request
    then has that user attached, exactly one token was created for it
    with the configured lifetime, and the calls made are the header read,
    the lookup, the password check and the token creation, in that
    order. *)
Theorem login_success_requires_verified_password
    self (w : World Store) (r : LoginResponse) (w' : World Store) :
  truthy (getCurrentUser (request w) (store w)).1 = false →
  login self w = (Ok r, w') →
  ∃ h creds l p u us,
    headers (request w) !! "Authorization" = Some h ∧
    slice_to 6 h = "Basic " ∧
    b64decode (slice_from 6 h) = Some creds ∧
    split1 ":" creds = [l; p] ∧
    let key := strip (lower l) in
    let field := if contains "@" key then "email" else "login" in
    user_find (store w) field key = u :: us ∧
    password_authenticate u p = true ∧
    girderUser (request w') = Some u ∧
    store w' = (token_createToken (store w) u (COOKIE_LIFETIME self)).2 ∧
    calls w' = calls w ++ [HeadersGet "Authorization"; UserFind field key;
                           PasswordAuthenticate u p;
                           CreateToken u (COOKIE_LIFETIME self)].
Proof.
  intros Hs Hlogin. rewrite (login_no_session self w Hs) in Hlogin.
  destruct (login_basic self w) as [[[ou ot]|e] w1] eqn:Hb; [|done].
  apply login_basic_inv in Hb
    as [(? & ? & [=] & _)|[[[=] _]|(h & creds & l & p & u & us & Hh & Hp &
                                     Hd & Hsp & Hf & Hpw & Hrun)]].
  rewrite bind_run in Hrun. cbn [set_girderUser modify] in Hrun.
  rewrite bind_run, sendAuthTokenCookie_run in Hrun. cbn in Hrun.
  destruct (u !! "_id"); [|done].
  destruct (_ !! "_id"); [|done].
  injection Hrun as <- <- <-.
  apply login_tail_run in Hlogin as [-> _].
  exists h, creds, l, p, u, us. cbn. split_and!; try done.
  by rewrite <- app_assoc.
Qed.

(** X8: whenever login fails with a [RestException] (401, 400 or 403),
    nothing but the record of calls has changed: no token was created,
    no cookie set, no user attached to the request. *)
Theorem login_RestException_changes_nothing
    self (w : World Store) msg c (w' : World Store) :
  login self w = (Raise (RestException msg c), w') →
  only_calls_added w w'.
Proof.
  unfold login. rewrite bind_run. cbn [getCurrentUser_returnToken gets].
  destruct (getCurrentUser (request w) (store w)) as [cu ct].
  destruct (truthy cu) eqn:Hcu; cbn [negb]; rewrite bind_run.
  - cbn [mret M_ret]. destruct cu as [u|]; [|done].
    destruct ct as [tk|].
    + intros Hrun. apply login_tail_run in Hrun as [_ Hno].
      exfalso. by eapply Hno.
    + rewrite bind_run, filter_run. cbn. done.
  - destruct (login_basic self w) as [[[ou ot]|e] w1] eqn:Hb.
    + apply login_basic_inv in Hb
        as [(? & ? & [=] & _)|[[[=] _]|(h & creds & l & p & u & us & _ & _ &
                                         _ & _ & _ & _ & Hrun)]].
      rewrite bind_run in Hrun; cbn [set_girderUser modify] in Hrun.
      rewrite bind_run, sendAuthTokenCookie_run in Hrun; cbn in Hrun.
      destruct (u !! "_id"); [|done].
      destruct (_ !! "_id"); [|done].
      injection Hrun as <- <- <-.
      intros Hrun. apply login_tail_run in Hrun as [_ Hno].
      exfalso. by eapply Hno.
    + intros [= -> <-].
      apply login_basic_inv in Hb
        as [(? & ? & _ & Hevs)|[[[=] _]|(h & creds & l & p & u & us & _ & _ &
                                         _ & _ & _ & _ & Hrun)]]; [done|].
      rewrite bind_run in Hrun; cbn [set_girderUser modify] in Hrun.
      rewrite bind_run, sendAuthTokenCookie_run in Hrun; cbn in Hrun.
      destruct (u !! "_id"); [|done].
      by destruct (_ !! "_id").
Qed.

Lemma login_tail_world (ou ot : option document) (w : World Store) :
  ((filtered ← _filter ou;
    tid ← getitem_opt ot "_id";
    exp ← getitem_opt ot "expires";
    uid ← getitem_opt ou "_id";
    mret {| user := filtered;
            authToken := {| token := tid; expires := exp; userId := uid |};
            message := "Login succeeded." |}) w).2 = w.
Proof.
  rewrite bind_run. destruct (filter_world ou w) as [y ->].
  unfold getitem_opt, getitem. rewrite !bind_run.
  destruct ot as [tk|]; [|done].
  destruct (tk !! "_id"); cbn; [|done].
  destruct (tk !! "expires"); cbn; [|done].
  destruct ou as [u|]; [|done].
  by destruct (u !! "_id").
Qed.

(** X9: Basic credentials that decode to a string without a colon are
    not reported as a [RestException]: the unpacking of the split raises
    [ValueError], after the header read and before any lookup. *)
Theorem login_colonless_credentials_raise_ValueError
    self (w : World Store) enc creds :
  truthy (getCurrentUser (request w) (store w)).1 = false →
  headers (request w) !! "Authorization" = Some ("Basic " +:+ enc) →
  b64decode enc = Some creds →
  contains ":" creds = false →
  login self w = (Raise ValueError, logged w [HeadersGet "Authorization"]).
Proof.
  intros Hs Hh Hd Hc. rewrite (login_no_session self w Hs).
  unfold login_basic. rewrite bind_run, headers_get_run. cbv zeta.
  change (headers (request (logged w [HeadersGet "Authorization"])))
    with (headers (request w)).
  rewrite Hh. cbn [default from_option id truthy_str].
  rewrite slice_to_prefix, slice_from_prefix, Hd.
  rewrite !bool_decide_true by done. cbn [negb orb].
  unfold split1. by rewrite (cut_absent _ _ Hc).
Qed.

(** X10: whatever its outcome, login leaves every response cookie other
    than [authToken] as it was. *)
Theorem login_touches_only_the_authToken_cookie self (w : World Store) :
  other_cookies_kept w (login self w).2.
Proof.
  intros k Hk. unfold login. rewrite bind_run.
  cbn [getCurrentUser_returnToken gets].
  destruct (getCurrentUser (request w) (store w)) as [cu ct].
  destruct (truthy cu) eqn:Hcu; cbn [negb]; rewrite bind_run.
  - cbn [mret M_ret]. by rewrite login_tail_world.
  - destruct (login_basic self w) as [[[ou ot]|e] w1] eqn:Hb.
    + rewrite login_tail_world.
      apply login_basic_inv in Hb
        as [(? & ? & [=] & _)|[[[=] _]|(h & creds & l & p & u & us & _ & _ &
                                         _ & _ & _ & _ & Hrun)]].
      rewrite bind_run in Hrun; cbn [set_girderUser modify] in Hrun.
      rewrite bind_run, sendAuthTokenCookie_run in Hrun; cbn in Hrun.
      destruct (u !! "_id"); [|done].
      destruct (_ !! "_id"); [|done].
      injection Hrun as <- <- <-. cbn. by rewrite lookup_insert_ne.
    + cbn [snd].
      apply login_basic_inv in Hb
        as [(? & ? & _ & evs & ->)|[[_ ->]|(h & creds & l & p & u & us & _ &
                                         _ & _ & _ & _ & _ & Hrun)]];
        [done|done|].
      rewrite bind_run in Hrun; cbn [set_girderUser modify] in Hrun.
      rewrite bind_run, sendAuthTokenCookie_run in Hrun; cbn in Hrun.
      destruct (u !! "_id"); [|by injection Hrun as <- <-].
      destruct (_ !! "_id"); [done|by injection Hrun as <- <-].
Qed.

(** X11: logout always succeeds with 'Logged out.', leaves the
    [authToken] response cookie with an empty value, path ['/'] and
    [expires] 0 whatever it held before, keeps the other cookies, and
    changes neither the store (the token is not revoked) nor the request,
    nor makes any model call. *)
Theorem logout_clears_cookie_and_keeps_store (w : World Store) :
  ∃ w',
    logout w = (Ok "Logged out.", w') ∧
    response_cookie w' !! "authToken"
      = Some {| morsel_value := EmptyString;
                morsel_path := Some "/";
                morsel_expires := Some 0 |} ∧
    other_cookies_kept w w' ∧
    store w' = store w ∧ request w' = request w ∧ calls w' = calls w.
Proof.
  eexists. split; [reflexivity|]. cbn.
  rewrite !alter_insert_eq. cbn. split_and!; try done.
  - by rewrite lookup_insert_eq.
  - intros k Hk. cbn. by rewrite lookup_insert_ne.
Qed.

(** X12: [getMe] never fails and changes nothing; it answers [None]
    exactly for an anonymous caller, and otherwise the caller's own
    document filtered, whose [_accessLevel] is the caller's level on
    itself and whose base fields are the caller's. *)
Theorem getMe_anonymous_or_own_record (w : World Store) :
  ∃ res,
    getMe w = (Ok res, w) ∧
    (res = None ↔ (getCurrentUser (request w) (store w)).1 = None) ∧
    ∀ u, (getCurrentUser (request w) (store w)).1 = Some u →
         ∃ filtered,
           res = Some filtered ∧
           filtered !! "_accessLevel"
             = Some (user_getAccessLevel u (Some u)) ∧
           ∀ k, k ∈ base_keys → filtered !! k = u !! k.
Proof.
  unfold getMe. rewrite bind_run. cbn [getCurrentUser_ gets].
  destruct (getCurrentUser (request w) (store w)).1 as [u|] eqn:Hcur.
  - rewrite filter_run, Hcur. eexists. split; [reflexivity|].
    split; [done|]. intros ? [= <-]. eexists. split; [reflexivity|].
    split; [by rewrite lookup_insert_eq|].
    intros k Hk. rewrite lookup_insert_ne, filterDocument_lookup.
    + rewrite decide_True; [done|].
      destruct (user_hasAccess _ _ _); set_solver.
    + intros <-. unfold base_keys in Hk. set_solver.
  - exists None. by split_and!.
Qed.

Lemma comprehension_filter (users : list document) (w : World Store) :
  ∃ results,
    comprehension (λ user, _filter (Some user)) users w = (Ok results, w) ∧
    Forall2 (λ u r, _filter (Some u) w = (Ok r, w)) users results.
Proof.
  induction users as [|u users (results & Hrun & Hall)].
  - by exists [].
  - eexists. cbn [comprehension].
    rewrite bind_run, filter_run, bind_run, Hrun. split; [reflexivity|].
    constructor; [apply filter_run|done].
Qed.

(** X13: when the paging parameters are accepted, [find] returns one
    entry per document of the search result, in the same order, each the
    filtered form of that document for the current requester (never
    [None]), and changes nothing. *)
Theorem find_filters_every_hit (params : gmap string string)
    (w : World Store) limit offset sort :
  getPagingParameters params "lastName" = inr (limit, offset, sort) →
  let requester := (getCurrentUser (request w) (store w)).1 in
  let hits := user_search (store w) (params !! "text") requester
                          offset limit sort in
  ∃ results,
    find params w = (Ok results, w) ∧
    length results = length hits ∧
    ∀ i u, hits !! i = Some u →
           ∃ filtered,
             results !! i = Some (Some filtered) ∧
             _filter (Some u) w = (Ok (Some filtered), w).
Proof.
  intros Hp requester hits. unfold find. rewrite Hp.
  rewrite bind_run. cbn [getCurrentUser_ gets]. rewrite bind_run.
  cbn [gets]. fold requester. fold hits.
  destruct (comprehension_filter hits w) as (results & -> & Hall).
  exists results. split; [done|]. split.
  - symmetry. by eapply Forall2_length.
  - intros i u Hi.
    destruct (Forall2_lookup_l _ _ _ _ _ Hall Hi) as (r & Hr & Hf).
    rewrite filter_run in Hf. injection Hf as <-.
    eexists. split; [exact Hr|]. apply filter_run.
Qed.

(** X6: when login decodes credentials [l:p], the field it searches is
    [email] exactly when the login part [l] as sent contains ['@']
    (normalisation neither adds nor removes one), and the key it
    searches is a fixed point of the normalisation: lower-casing and
    stripping it again gives the same key. *)
Theorem login_lookup_field_follows_raw_login
    self (w : World Store) enc l p :
  truthy (getCurrentUser (request w) (store w)).1 = false →
  headers (request w) !! "Authorization" = Some ("Basic " +:+ enc) →
  b64decode enc = Some (l +:+ ":" +:+ p) →
  contains ":" l = false →
  ∃ key rest,
    calls (login self w).2
    = calls w ++ [HeadersGet "Authorization";
                  UserFind (if contains "@" l then "email" else "login") key]
              ++ rest ∧
    strip (lower key) = key.
Proof.
  intros Hs Hh Hd Hc.
  destruct (login_key_is_canonical l) as [Hcanon Hat].
  exists (strip (lower l)). rewrite <- Hat.
  rewrite (login_no_session self w Hs).
  rewrite (login_basic_credentials self w enc l p Hh Hd Hc).
  destruct (user_find _ _ _) as [|u us]; [by exists []|].
  destruct (password_authenticate u p);
    [|by exists [PasswordAuthenticate u p]].
  destruct (appends_login_tail self u
              (logged w [HeadersGet "Authorization";
                         UserFind
                           (if contains "@" (strip (lower l))
                            then "email" else "login") (strip (lower l));
                         PasswordAuthenticate u p])) as [evs Hevs].
  exists (PasswordAuthenticate u p :: evs). split; [|done].
  rewrite bind_run in Hevs. cbn zeta.
  destruct ((_ ← set_girderUser u; _) _) as [[[u' t']|e] w1];
    cbn [fst snd] in Hevs |- *;
    rewrite Hevs; cbn [logged calls]; by rewrite <- !app_assoc.
Qed.

Lemma createUser_inv self (params : gmap string string) (w : World Store)
    res w' :
  createUser self params w = (res, w') →
  (calls w' = calls w ∧ response_cookie w' = response_cookie w ∧
   request w' = request w ∧ ∃ e, res = Raise e) ∨
  (∃ l pw em fn ln user,
     requireParams ["firstName"; "lastName"; "login"; "password"; "email"]
                   params = None ∧
     params !! "login" = Some l ∧ params !! "password" = Some pw ∧
     params !! "email" = Some em ∧ params !! "firstName" = Some fn ∧
     params !! "lastName" = Some ln ∧
     (user_createUser (store w) l pw em fn ln).1 = Ok user ∧
     (_ ← _sendAuthTokenCookie self user; _filter (Some user))
       {| request := {| headers := headers (request w);
                        cookie := cookie (request w);
                        girderUser := Some user |};
          response_cookie := response_cookie w;
          store := (user_createUser (store w) l pw em fn ln).2;
          calls := calls w |} = (res, w')).
Proof.
  unfold createUser, params_getitem.
  destruct (requireParams _ _) as [e|] eqn:Hreq;
    [intros [= <- <-]; left; eauto|].
  destruct (params !! "login") as [l|] eqn:Hl;
    [|intros [= <- <-]; left; eauto].
  rewrite bind_run. cbn [mret M_ret].
  destruct (params !! "password") as [pw|] eqn:Hpw;
    [|intros [= <- <-]; left; eauto].
  rewrite bind_run. cbn [mret M_ret].
  destruct (params !! "email") as [em|] eqn:Hem;
    [|intros [= <- <-]; left; eauto].
  rewrite bind_run. cbn [mret M_ret].
  destruct (params !! "firstName") as [fn|] eqn:Hfn;
    [|intros [= <- <-]; left; eauto].
  rewrite bind_run. cbn [mret M_ret].
  destruct (params !! "lastName") as [ln|] eqn:Hln;
    [|intros [= <- <-]; left; eauto].
  rewrite bind_run. cbn [mret M_ret].
  rewrite bind_run. cbn [gets]. rewrite bind_run. cbn [modify].
  destruct (user_createUser (store w) l pw em fn ln) as [[user|e] st1] eqn:Hc;
    cbn [fst snd]; [|intros [= <- <-]; left; eauto].
  rewrite bind_run. cbn [set_girderUser modify request response_cookie
                         store calls].
  intros Hrun. right. exists l, pw, em, fn, ln, user. rewrite Hc.
  by split_and!.
Qed.


(** X15: [createUser] makes a recorded model call (the token creation)
    only if the required parameters were accepted, all five were present
    and the model did create the user. *)
Theorem createUser_no_token_without_user self
    (params : gmap string string) (w : World Store) :
  calls (createUser self params w).2 ≠ calls w →
  requireParams ["firstName"; "lastName"; "login"; "password"; "email"]
                params = None ∧
  ∃ l pw em fn ln user,
    params !! "login" = Some l ∧ params !! "password" = Some pw ∧
    params !! "email" = Some em ∧ params !! "firstName" = Some fn ∧
    params !! "lastName" = Some ln ∧
    (user_createUser (store w) l pw em fn ln).1 = Ok user.
Proof.
  destruct (createUser self params w) as [res w'] eqn:Hrun. cbn [snd].
  apply createUser_inv in Hrun
    as [(Hcalls & _)|(l & pw & em & fn & ln & user & Hreq & Hl &
                      Hpw & Hem & Hfn & Hln & Hc & _)]; [done|].
  intros _. split; [done|]. by exists l, pw, em, fn, ln, user.
Qed.
End MoreUser.

(** ** More on the catalogue endpoints *)

Section MoreCatalogue.
Import Describe pystr.

Lemma string_app_assoc (s1 s2 s3 : string) :
  (s1 +:+ s2) +:+ s3 = s1 +:+ s2 +:+ s3.
Proof. induction s1 as [|a s1 IH]; [done|]. by rewrite !append_cons, IH. Qed.

(** X5: for a request URL [scheme:rest], the two catalogue endpoints
    build their base path from the text before the first colon:
    [describeResource] reports [scheme://api_root], [listResources]
    reports the same followed by [/describe], and both report the same
    API and Swagger versions. *)
Theorem catalogue_base_paths_agree
    (cp : CherryPy) (docs : Docs) (scheme rest resource : string) :
  url cp = scheme +:+ ":" +:+ rest →
  contains ":" scheme = false →
  is_Some (routes docs !! resource) →
  ∃ r,
    describeResource cp docs resource = Ok r ∧
    ad_basePath r = scheme +:+ "://" +:+ api_root cp ∧
    rl_basePath (listResources cp docs) = ad_basePath r +:+ "/describe" ∧
    ad_apiVersion r = rl_apiVersion (listResources cp docs) ∧
    ad_swaggerVersion r = rl_swaggerVersion (listResources cp docs).
Proof.
  intros Hurl Hc [paths Hr]. unfold describeResource, listResources.
  rewrite Hr. eexists. split; [reflexivity|].
  cbn [ad_basePath rl_basePath ad_apiVersion rl_apiVersion
       ad_swaggerVersion rl_swaggerVersion].
  unfold split_head. rewrite Hurl.
  change (":" +:+ rest) with (String ":" rest).
  rewrite cut_first by done. cbn [fst].
  split_and!; try done. by rewrite !string_app_assoc.
Qed.
End MoreCatalogue.

(** ** The further handlers on concrete requests *)

Section DeploymentEndpoints.
Import v1_user v1_user_endpoints pystr deployment deployment_endpoints.

Lemma catalogue_base_paths_agree_witness :
  ∃ r,
    Describe.describeResource site docs3 "user" = Ok r ∧
    Describe.ad_basePath r = "http://localhost:8080/api/v1" ∧
    Describe.rl_basePath (Describe.listResources site docs3)
      = "http://localhost:8080/api/v1/describe".
Proof.
  destruct (catalogue_base_paths_agree site docs3 "http"
              "//localhost:8080/api/v1/describe" "user")
    as (r & Hr & Hb & Hl & _);
    [vm_compute; reflexivity|vm_compute; reflexivity|vm_compute; eauto|].
  exists r. split; [exact Hr|]. split; [exact Hb|].
  rewrite Hl, Hb. vm_compute. reflexivity.
Defined.

Lemma login_lookup_field_follows_raw_login_witness :
  ∃ key rest,
    calls (login (User_init store0) as_email).2
    = [HeadersGet "Authorization"; UserFind "email" key] ++ rest ∧
    strip (lower key) = key.
Proof.
  destruct (login_lookup_field_follows_raw_login
              (User_init store0) as_email
              "IEFAWC5jb206cEBzcw==" " A@X.com" "p@ss")
    as (key & rest & Hcalls & Hkey); [vm_compute; reflexivity..|].
  exists key, rest. split; [exact Hcalls|exact Hkey].
Defined.

Lemma login_success_requires_verified_password_witness :
  ∃ r w' p u,
    login (User_init store0) as_alice = (Ok r, w') ∧
    password_authenticate u p = true ∧
    girderUser (request w') = Some u.
Proof.
  assert (∃ r w', login (User_init store0) as_alice = (Ok r, w'))
    as (r & w' & Hlogin) by (vm_compute; eauto).
  destruct (login_success_requires_verified_password
              (User_init store0) as_alice r w')
    as (h & creds & l & p & u & us & _ & _ & _ & _ & _ & Hpw & Hg & _);
    [vm_compute; reflexivity|exact Hlogin|].
  exists r, w', p, u. split; [exact Hlogin|]. split; [exact Hpw|exact Hg].
Defined.

Lemma login_RestException_changes_nothing_witness :
  ∃ w', login (User_init store0) as_bob
        = (Raise (RestException "Login failed." 403), w') ∧
        only_calls_added as_bob w'.
Proof.
  assert (∃ w', login (User_init store0) as_bob
                = (Raise (RestException "Login failed." 403), w'))
    as (w' & Hlogin) by (vm_compute; eauto).
  exists w'. split; [exact Hlogin|].
  exact (login_RestException_changes_nothing
           (User_init store0) as_bob "Login failed." 403 w' Hlogin).
Defined.

Lemma login_colonless_credentials_raise_ValueError_witness :
  login (User_init store0) colonless
  = (Raise ValueError, logged colonless [HeadersGet "Authorization"]).
Proof.
  apply (login_colonless_credentials_raise_ValueError
           (User_init store0) colonless "YWJj" "abc");
    vm_compute; reflexivity.
Defined.

Lemma find_filters_every_hit_witness :
  ∃ results,
    v1_user_endpoints.find ∅ anonymous = (Ok results, anonymous) ∧
    length results = 1%nat.
Proof.
  destruct (find_filters_every_hit ∅ anonymous 50 0 [("lastName", 1)])
    as (results & Hfind & Hlen & _); [reflexivity|].
  exists results. split; [exact Hfind|exact Hlen].
Defined.


Lemma createUser_no_token_without_user_witness :
  requireParams ["firstName"; "lastName"; "login"; "password"; "email"]
                bob_params = None ∧
  ∃ l pw em fn ln user,
    bob_params !! "login" = Some l ∧ bob_params !! "password" = Some pw ∧
    bob_params !! "email" = Some em ∧ bob_params !! "firstName" = Some fn ∧
    bob_params !! "lastName" = Some ln ∧
    (user_createUser (store anonymous) l pw em fn ln).1 = Ok user.
Proof.
  apply (createUser_no_token_without_user
           (User_init store0) bob_params anonymous).
  vm_compute. discriminate.
Defined.

End DeploymentEndpoints.
